(** * Weather_today.py: citation normalisation, evidence numbering, feed de-duplication

    A shallow embedding of the pure parts of [src/Weather_today.py]:
    - the regular-expression text utilities of lines 110-139
      ([normalize_brackets], [strip_invalid_citations], [extract_ref_order],
      [renumber_citations]);
    - the citation part of [build_email] (lines 220-241);
    - the evidence block of [summarize_overall] (lines 162-165) and the
      function as a whole, the text generator being an argument;
    - the de-duplication and ordering of [fetch_items] (lines 106-107) and
      its loop over the feed entries, the parsed dates and the clock being
      data of the entries;
    - [clean_text], with [html.unescape] as an argument, [html.escape], and
      [html_paragraphs] as [build_email] defines it.

    A Python [str] is a list of Unicode code points.  The classes [\d] and
    [\s] of [re], [int] and [str.strip] follow the Unicode database of the
    interpreter: the decimal digits of every script, each with its value, and
    the Unicode whitespace (the tables below are those of CPython 3.11,
    Unicode 14.0).  [int] raises [ValueError] on more digits than the
    interpreter's limit on integer string conversion, which is an argument
    [lim] of every function that converts.  A Python [dict] is an association
    list kept in insertion order, as CPython keeps it. *)

From Stdlib Require Import Strings.String Strings.Ascii List NArith ZArith Bool
  Arith Lia Numbers.DecimalString Numbers.DecimalN Numbers.DecimalPos
  Sorting.Sorted Sorting.Permutation.
Import ListNotations.

Open Scope string_scope.
Open Scope list_scope.

(** ** Exceptions *)

Inductive exn := ValueError | KeyError | IndexError.

Inductive result (A : Type) : Type :=
| Ok (a : A)
| Raise (e : exn).

Arguments Ok {A} a.
Arguments Raise {A} e.

Definition bind {A B} (r : result A) (k : A -> result B) : result B :=
  match r with
  | Ok a => k a
  | Raise e => Raise e
  end.

Notation "x <- r ;; k" := (bind r (fun x => k))
  (at level 61, r at next level, right associativity).

(** ** Texts *)

(** A character is its code point, [ord(c)]. *)
Definition char := N.
Definition ustring := list char.

Definition ord (a : ascii) : char := N_of_ascii a.

(** The text of an ASCII literal. *)
Definition str (s : string) : ustring := map ord (list_ascii_of_string s).

Fixpoint text_eqb (a b : ustring) : bool :=
  match a, b with
  | [], [] => true
  | x :: a', y :: b' => (x =? y)%N && text_eqb a' b'
  | _, _ => false
  end.

(** ** The character classes of the interpreter *)

(** The first code point of each run of ten decimal digits (general
    category Nd): ASCII, Arabic-Indic, ..., fullwidth, ..., the mathematical
    digits, ... *)
Definition decimal_runs : list N :=
  [48; 1632; 1776; 1984; 2406; 2534; 2662; 2790; 2918; 3046; 3174; 3302;
   3430; 3558; 3664; 3792; 3872; 4160; 4240; 6112; 6160; 6470; 6608; 6784;
   6800; 6992; 7088; 7232; 7248; 42528; 43216; 43264; 43472; 43504; 43600;
   44016; 65296; 66720; 68912; 69734; 69872; 69942; 70096; 70384; 70736;
   70864; 71248; 71360; 71472; 71904; 72016; 72784; 73040; 73120; 92768;
   92864; 93008; 120782; 120792; 120802; 120812; 120822; 123200; 123632;
   125264; 130032]%N.

Fixpoint decimal_in (runs : list N) (c : char) : option N :=
  match runs with
  | [] => None
  | s :: r =>
      if ((s <=? c) && (c <? s + 10))%N then Some (c - s)%N
      else decimal_in r c
  end.

(** The value of [c] as a decimal digit, if it is one. *)
Definition decimal (c : char) : option N := decimal_in decimal_runs c.

(** [\d]. *)
Definition is_digit (c : char) : bool :=
  match decimal c with Some _ => true | None => false end.

Definition digit_value (c : char) : N :=
  match decimal c with Some v => v | None => 0%N end.

(** [\s] and the characters that [str.strip()] removes. *)
Definition is_space (c : char) : bool :=
  (((9 <=? c) && (c <=? 13)) || ((28 <=? c) && (c <=? 32))
   || (c =? 133) || (c =? 160) || (c =? 5760)
   || ((8192 <=? c) && (c <=? 8202))
   || (c =? 8232) || (c =? 8233) || (c =? 8239) || (c =? 8287)
   || (c =? 12288))%N.

(** ** Python primitives *)

Fixpoint int_acc (acc : N) (s : ustring) : N :=
  match s with
  | [] => acc
  | c :: r => int_acc (10 * acc + digit_value c) r
  end.

(** The number that a run of digits denotes. *)
Definition int_value (s : ustring) : N := int_acc 0 s.

(** [int(s)] for a run of digits [s]: [ValueError] when [s] has more digits
    than the interpreter's limit on integer string conversion
    ([sys.get_int_max_str_digits()]: 4300 unless reconfigured, 0 switches the
    limit off, any other value is at least 640), as in [int('2' * 5432)] of
    the Python documentation. *)
Definition py_int (lim : nat) (s : ustring) : result N :=
  if (0 <? lim)%nat && (lim <? List.length s)%nat
  then Raise ValueError
  else Ok (int_value s).

Definition default_max_str_digits : nat := 4300.

(** [str(n)], as the f-strings render a number. *)
Definition py_str (n : N) : ustring := str (NilEmpty.string_of_uint (N.to_uint n)).

(** [enumerate(l)], with the start index as an accumulator. *)
Fixpoint enumerate_from {A} (i : N) (l : list A) : list (N * A) :=
  match l with
  | [] => []
  | x :: r => (i, x) :: enumerate_from (i + 1) r
  end.

Definition enumerate {A} (l : list A) : list (N * A) := enumerate_from 0 l.

(** [sep.join(parts)]. *)
Fixpoint join (sep : ustring) (parts : list ustring) : ustring :=
  match parts with
  | [] => []
  | [x] => x
  | x :: r => x ++ sep ++ join sep r
  end.

(** [l[i]] on a list: negative indices count from the end, anything else
    out of range raises [IndexError]. *)
Definition list_getitem {A} (l : list A) (i : Z) : result A :=
  let n := Z.of_nat (List.length l) in
  let j := if (i <? 0)%Z then (i + n)%Z else i in
  if ((0 <=? j) && (j <? n))%Z then
    match nth_error l (Z.to_nat j) with
    | Some x => Ok x
    | None => Raise IndexError
    end
  else Raise IndexError.

(** [sorted(l, key=...)] is stable; [before x y] says that [x], met earlier
    than [y] in [l], stays in front of it ([key x <= key y], or
    [key x >= key y] under [reverse=True]). *)
Fixpoint insert_by {A} (before : A -> A -> bool) (x : A) (l : list A) : list A :=
  match l with
  | [] => [x]
  | y :: r => if before x y then x :: y :: r else y :: insert_by before x r
  end.

Definition sorted_by {A} (before : A -> A -> bool) (l : list A) : list A :=
  fold_right (insert_by before) [] l.

(** ** Dictionaries, in insertion order *)

Section Dict.
Context {K V : Type}.
Variable keqb : K -> K -> bool.

Definition dict := list (K * V).

(** [d.get(k)] / [k in d]. *)
Fixpoint dict_get (k : K) (d : dict) : option V :=
  match d with
  | [] => None
  | (k', v) :: r => if keqb k k' then Some v else dict_get k r
  end.

Definition dict_contains (k : K) (d : dict) : bool :=
  match dict_get k d with Some _ => true | None => false end.

(** [d[k]], which raises [KeyError] on a missing key. *)
Definition dict_getitem (k : K) (d : dict) : result V :=
  match dict_get k d with Some v => Ok v | None => Raise KeyError end.

(** [d[k] = v]: a key already present keeps its place and takes the new
    value; a new key goes last. *)
Fixpoint dict_set (k : K) (v : V) (d : dict) : dict :=
  match d with
  | [] => [(k, v)]
  | (k', v') :: r =>
      if keqb k k' then (k', v) :: r else (k', v') :: dict_set k v r
  end.

Definition dict_values (d : dict) : list V := map snd d.
Definition dict_keys (d : dict) : list K := map fst d.
End Dict.

Arguments dict K V : clear implicits.

(** ** The three patterns [\{(\d+)\}], [\((\d+)\)], [\[(\d+)\]] *)

Inductive bracket := Brace | Paren | Square.

Definition opening (b : bracket) : char :=
  match b with Brace => ord "{" | Paren => ord "(" | Square => ord "[" end.

Definition closing (b : bracket) : char :=
  match b with Brace => ord "}" | Paren => ord ")" | Square => ord "]" end.

Fixpoint all_digits (s : ustring) : bool :=
  match s with
  | [] => true
  | c :: r => is_digit c && all_digits r
  end.

(** What [\d+] accepts: one digit or more. *)
Definition digit_run (s : ustring) : bool :=
  match s with
  | [] => false
  | _ :: _ => all_digits s
  end.

(** The rest of a match once the opening bracket is read: digits, as many as
    there are, then the closing bracket.  Returns the digits read. *)
Fixpoint digits_then (cl : char) (s : ustring) : option ustring :=
  match s with
  | [] => None
  | ch :: r =>
      if is_digit ch then option_map (cons ch) (digits_then cl r)
      else if (ch =? cl)%N then Some []
      else None
  end.

(** A match anchored at the head of [s]: [m.group(1)]. *)
Definition match_here (b : bracket) (s : ustring) : option ustring :=
  match s with
  | ch :: d :: r =>
      if (ch =? opening b)%N && is_digit d
      then digits_then (closing b) (d :: r)
      else None
  | _ => None
  end.

(** [m.group(0)]. *)
Definition group0 (b : bracket) (g1 : ustring) : ustring :=
  opening b :: g1 ++ [closing b].

(** The text cut at the leftmost non-overlapping matches, as [re.sub] and
    [re.finditer] walk it: a character outside every match, or a match. *)
Inductive piece :=
| Lit (c : char)
| Match (g1 : ustring).

(** [skip] counts the characters of the current match still to pass. *)
Fixpoint scan_from (b : bracket) (skip : nat) (s : ustring) : list piece :=
  match s with
  | [] => []
  | ch :: rest =>
      match skip with
      | S k => scan_from b k rest
      | O =>
          match match_here b s with
          | Some g1 => Match g1 :: scan_from b (S (List.length g1)) rest
          | None => Lit ch :: scan_from b 0 rest
          end
      end
  end.

Definition scan (b : bracket) (s : ustring) : list piece := scan_from b 0 s.

(** [m.group(1)] for [m] in [re.finditer(pattern, s)]. *)
Definition re_finditer (b : bracket) (s : ustring) : list ustring :=
  flat_map (fun p => match p with Match g1 => [g1] | Lit _ => [] end) (scan b s).

Definition expand (repl : ustring -> ustring) (ps : list piece) : ustring :=
  fold_right
    (fun p acc => match p with
                  | Lit c => c :: acc
                  | Match g1 => repl g1 ++ acc
                  end) [] ps.

(** [re.sub(pattern, repl, s)] with a template, or a function that cannot
    raise. *)
Definition re_sub (b : bracket) (repl : ustring -> ustring) (s : ustring) : ustring :=
  expand repl (scan b s).

(** [re.sub] with a replacement function that may raise: it is called on the
    matches from left to right and the first exception ends the
    substitution. *)
Fixpoint expand_exn (repl : ustring -> result ustring) (ps : list piece)
  : result ustring :=
  match ps with
  | [] => Ok []
  | Lit c :: r => acc <- expand_exn repl r ;; Ok (c :: acc)
  | Match g1 :: r =>
      s <- repl g1 ;;
      acc <- expand_exn repl r ;;
      Ok (s ++ acc)
  end.

Definition re_sub_exn (b : bracket) (repl : ustring -> result ustring) (s : ustring)
  : result ustring :=
  expand_exn repl (scan b s).

(** A match of the pattern starts somewhere in [s]. *)
Fixpoint has_match (b : bracket) (s : ustring) : bool :=
  match s with
  | [] => false
  | _ :: rest =>
      match match_here b s with
      | Some _ => true
      | None => has_match b rest
      end
  end.

(** ** Citation and text utilities (lines 110-139) *)

(** The template [r"[\1]"]. *)
Definition canonical (g1 : ustring) : ustring := group0 Square g1.

Definition normalize_brackets (text : ustring) : ustring :=
  let text := re_sub Brace canonical text in
  let text := re_sub Paren canonical text in
  text.

Definition in_range (n max_n : N) : bool := (1 <=? n)%N && (n <=? max_n)%N.

Definition strip_invalid_citations (lim : nat) (text : ustring) (max_n : N)
  : result ustring :=
  let repl g1 :=
    n <- py_int lim g1 ;;
    Ok (if in_range n max_n then group0 Square g1 else []) in
  re_sub_exn Square repl text.

Definition mem (n : N) (nums : list N) : bool := existsb (N.eqb n) nums.

(** The body of the loop of [extract_ref_order], once [n] is read. *)
Definition extract_step (max_n : N) (nums : list N) (n : N) : list N :=
  if in_range n max_n && negb (mem n nums) then nums ++ [n] else nums.

Fixpoint extract_loop (lim : nat) (max_n : N) (ms : list ustring) (nums : list N)
  : result (list N) :=
  match ms with
  | [] => Ok nums
  | g1 :: r =>
      n <- py_int lim g1 ;;
      extract_loop lim max_n r (extract_step max_n nums n)
  end.

Definition extract_ref_order (lim : nat) (summary_text : ustring) (max_n : N)
  : result (list N) :=
  extract_loop lim max_n (re_finditer Square summary_text) [].

(** [{old: i+1 for i, old in enumerate(cited_nums)}]. *)
Definition mapping_of (cited_nums : list N) : dict N N :=
  fold_left (fun d '(i, old) => dict_set N.eqb old (i + 1)%N d)
            (enumerate cited_nums) [].

Definition renumber_citations (lim : nat) (summary_text : ustring)
    (cited_nums : list N) : result (ustring * dict N N) :=
  let mapping := mapping_of cited_nums in
  let repl g1 :=
    old <- py_int lim g1 ;;
    if dict_contains N.eqb old mapping
    then new <- dict_getitem N.eqb old mapping ;;
         Ok (str "[" ++ py_str new ++ str "]")
    else Ok [] in
  new_text <- re_sub_exn Square repl summary_text ;;
  Ok (new_text, mapping).

(** Every marker of [text] has at most [lim] digits, or the limit is off. *)
Definition digits_within (lim : nat) (text : ustring) : bool :=
  (lim =? 0)%nat
  || forallb (fun g1 => (List.length g1 <=? lim)%nat) (re_finditer Square text).

(** Every marker of [text] has its number in [1..k]. *)
Definition markers_in_range (text : ustring) (k : N) : bool :=
  forallb (fun g1 => in_range (int_value g1) k) (re_finditer Square text).

(** ** Evidence items *)

Record Item := mkItem {
  title : ustring;
  link : ustring;
  abstract : ustring;
  pub : Z   (* the publication instant, in microseconds *)
}.

Definition uniq_by_link (items : list Item) : dict ustring Item :=
  fold_left (fun d it => dict_set text_eqb (link it) it d) items [].

(** Lines 106-107 of [fetch_items], on the list [items] that the loop over
    the feeds has collected. *)
Definition fetch_items (items : list Item) : list Item :=
  let uniq := uniq_by_link items in
  sorted_by (fun x y => (pub y <=? pub x)%Z) (dict_values uniq).

(** [it] stands in [items] and no later item has its link. *)
Definition last_with_link (items : list Item) (it : Item) : Prop :=
  exists l1 l2,
    items = l1 ++ it :: l2 /\ forall x, In x l2 -> link x <> link it.

(** Lines 162-165 of [summarize_overall]: the evidence list. *)
Definition evidence_line (i : N) (it : Item) : ustring :=
  str "[" ++ py_str (i + 1) ++ str "] " ++ title it ++ str " (" ++ link it
      ++ str "): " ++ abstract it.

Definition evidence_lines (numbered_items : list Item) : list ustring :=
  map (fun '(i, it) => evidence_line i it) (enumerate numbered_items).

Definition nl : ustring := [10%N].

Definition evidence (numbered_items : list Item) : ustring :=
  join nl (evidence_lines numbered_items).

(** Lines 155-165: with no item [summarize_overall] returns before any
    evidence is built. *)
Definition evidence_block (numbered_items : list Item) : option ustring :=
  match numbered_items with
  | [] => None
  | _ :: _ => Some (evidence numbered_items)
  end.

(** ** The citation part of [build_email] (lines 220-241)

    [overall_raw] is what [summarize_overall(numbered)] returned.  The result
    is the cleaned text, the mapping, the items referred to and
    [refs_text_parts]; [refs_html_parts] has the same entries in HTML markup
    and is left out. *)

Definition ref_text (new : N) (it : Item) : ustring :=
  str "[" ++ py_str new ++ str "] " ++ title it ++ str " " ++ link it.

Fixpoint ref_parts (numbered : list Item) (kvs : list (N * N))
  : result (list (N * Item)) :=
  match kvs with
  | [] => Ok []
  | (old, new) :: r =>
      it <- list_getitem numbered (Z.of_N old - 1) ;;
      rest <- ref_parts numbered r ;;
      Ok ((new, it) :: rest)
  end.

Record Brief := mkBrief {
  overall : ustring;
  mapping : dict N N;
  references : list (N * Item);
  refs_text_parts : list ustring
}.

Definition no_references : ustring := str "No references available.".

Definition build_email_citations (lim : nat) (items : list Item)
    (overall_raw : ustring) : result Brief :=
  let numbered := items in
  let max_n := N.of_nat (List.length numbered) in
  let overall := normalize_brackets overall_raw in
  overall <- strip_invalid_citations lim overall max_n ;;
  old_order <- extract_ref_order lim overall max_n ;;
  match old_order with
  | _ :: _ =>
      r <- renumber_citations lim overall old_order ;;
      let '(overall, mapping) := r in
      refs <- ref_parts numbered
                (sorted_by (fun kv1 kv2 => (snd kv1 <=? snd kv2)%N) mapping) ;;
      Ok (mkBrief overall mapping refs
                  (map (fun '(new, it) => ref_text new it) refs))
  | [] =>
      Ok (mkBrief overall [] [] [no_references])
  end.

(** A text of [n] copies of one character. *)
Definition replicate (n : nat) (c : char) : ustring := repeat c n.

(** ** Sample data *)

Definition item1 := mkItem (str "T1") (str "http://a/1") (str "abs1") 50.
Definition item2 := mkItem (str "T2") (str "http://a/2") (str "abs2") 40.
Definition item3 := mkItem (str "T3") (str "http://a/3") (str "abs3") 30.
Definition item4 := mkItem (str "T4") (str "http://a/4") [] 20.
Definition item5 := mkItem (str "T5") (str "http://a/5") (str "abs5") 10.
Definition items5 := [item1; item2; item3; item4; item5].

(** The marker of 4301 digits. *)
Definition long_marker : ustring :=
  str "[" ++ replicate 4301 (ord "2") ++ str "]".

(** ** Characters of a text *)

(** The bracket a character stands for once its shape is forgotten. *)
Definition square_shape (c : char) : char :=
  if (c =? ord "{")%N || (c =? ord "(")%N then ord "["
  else if (c =? ord "}")%N || (c =? ord ")")%N then ord "]"
  else c.

(** ** [html.escape], [str.strip] and [clean_text] (lines 61-66) *)

(** [s.replace(old, new)] for a one-character [old]. *)
Fixpoint replace_char (old : char) (new : ustring) (s : ustring) : ustring :=
  match s with
  | [] => []
  | c :: r =>
      if (c =? old)%N then new ++ replace_char old new r
      else c :: replace_char old new r
  end.

Definition dquote : char := 34%N.
Definition squote : char := 39%N.

(** [html.escape(s)], with [quote=True]: the five replacements in the order
    of the library, [&] first. *)
Definition html_escape (s : ustring) : ustring :=
  let s := replace_char (ord "&") (str "&amp;") s in
  let s := replace_char (ord "<") (str "&lt;") s in
  let s := replace_char (ord ">") (str "&gt;") s in
  let s := replace_char dquote (str "&quot;") s in
  let s := replace_char squote (str "&#x27;") s in
  s.

(** What one character becomes. *)
Definition escape_char (c : char) : ustring :=
  if (c =? ord "&")%N then str "&amp;"
  else if (c =? ord "<")%N then str "&lt;"
  else if (c =? ord ">")%N then str "&gt;"
  else if (c =? dquote)%N then str "&quot;"
  else if (c =? squote)%N then str "&#x27;"
  else [c].

Fixpoint occurs (c : char) (s : ustring) : bool :=
  match s with
  | [] => false
  | x :: r => (x =? c)%N || occurs c r
  end.

(** The escape of a text, character by character. *)
Fixpoint escape_chars (s : ustring) : ustring :=
  match s with
  | [] => []
  | c :: r => escape_char c ++ escape_chars r
  end.

Fixpoint lstrip (s : ustring) : ustring :=
  match s with
  | [] => []
  | c :: r => if is_space c then lstrip r else s
  end.

Fixpoint rstrip (s : ustring) : ustring :=
  match s with
  | [] => []
  | c :: r =>
      match rstrip r with
      | [] => if is_space c then [] else [c]
      | (_ :: _) as r' => c :: r'
      end
  end.

(** [s.strip()]. *)
Definition py_strip (s : ustring) : ustring := rstrip (lstrip s).

(** The pattern [<[^>]+>].  After ["<"]: the number of characters before the
    first [">"]. *)
Fixpoint before_gt (s : ustring) : option nat :=
  match s with
  | [] => None
  | c :: r => if (c =? ord ">")%N then Some O else option_map S (before_gt r)
  end.

(** A tag anchored at the head of [s]: the number of characters between
    ["<"] and [">"], one at least. *)
Definition match_tag (s : ustring) : option nat :=
  match s with
  | c :: r =>
      if (c =? ord "<")%N
      then match before_gt r with
           | Some (S k) => Some (S k)
           | _ => None
           end
      else None
  | [] => None
  end.

(** [re.sub] of the pattern [<[^>]+>] by the empty text; [skip] counts the
    characters of the current tag still to pass. *)
Fixpoint strip_tags_from (skip : nat) (s : ustring) : ustring :=
  match s with
  | [] => []
  | c :: r =>
      match skip with
      | S k => strip_tags_from k r
      | O =>
          match match_tag s with
          | Some k => strip_tags_from (S k) r
          | None => c :: strip_tags_from 0 r
          end
      end
  end.

Definition strip_tags (s : ustring) : ustring := strip_tags_from 0 s.

(** A tag starts somewhere in [s]. *)
Fixpoint has_tag (s : ustring) : bool :=
  match s with
  | [] => false
  | _ :: r =>
      match match_tag s with
      | Some _ => true
      | None => has_tag r
      end
  end.

(** [clean_text].  [unescape] stands for [html.unescape], whose table of
    character references is the library's. *)
Definition clean_text (unescape : ustring -> ustring) (t : ustring) : ustring :=
  match t with
  | [] => []
  | _ :: _ =>
      let t := unescape t in
      let t := strip_tags t in
      py_strip t
  end.

(** ** The loop of [fetch_items] over the feed entries (lines 83-104) *)

(** The truth value of a string: [not s] is true of the empty string only. *)
Definition truthy (s : ustring) : bool :=
  match s with
  | [] => false
  | _ :: _ => true
  end.

Fixpoint starts_with (sub s : ustring) : bool :=
  match sub, s with
  | [], _ => true
  | _ :: _, [] => false
  | a :: sub', b :: s' => (a =? b)%N && starts_with sub' s'
  end.

(** [sub in s]: [sub] stands somewhere in [s]. *)
Fixpoint contains (sub s : ustring) : bool :=
  starts_with sub s
  || match s with
     | [] => false
     | _ :: r => contains sub r
     end.

(** Lines 95-97: summary and description in one abstract. *)
Definition combine_abstract (summary description : ustring) : ustring :=
  if truthy description && negb (contains description summary)
  then (if truthy summary
        then py_strip (summary ++ str " " ++ description)
        else description)
  else summary.

(** A feed entry: its four text attributes (a missing one is the empty
    string), the instant that [parse_pubdate] returns for it, in
    microseconds, the weekday of that date in the configured time zone
    (Monday is 0), and the clock at the moment [within_window] tests it. *)
Record Entry := mkEntry {
  e_title : ustring;
  e_link : ustring;
  e_summary : ustring;
  e_description : ustring;
  e_pub : Z;
  e_weekday : Z;
  e_now : Z
}.

(** [within_window], with the clock reading and [HOURS_BACK] as arguments. *)
Definition within_window (now hours_back dt : Z) : bool :=
  (now - hours_back * 3600000000 <=? dt)%Z.

(** The body of the loop: the item an entry gives, if it is kept. *)
Definition entry_item (unescape : ustring -> ustring) (include_weekends : bool)
    (hours_back : Z) (e : Entry) : option Item :=
  let title := clean_text unescape (e_title e) in
  let link := e_link e in
  let summary := clean_text unescape (e_summary e) in
  let description := clean_text unescape (e_description e) in
  let combined := combine_abstract summary description in
  let pub := e_pub e in
  if negb (truthy title) || negb (truthy link) then None
  else if negb include_weekends && (5 <=? e_weekday e)%Z then None
  else if within_window (e_now e) hours_back pub
       then Some (mkItem title link combined pub)
       else None.

Definition collect_items (unescape : ustring -> ustring) (include_weekends : bool)
    (hours_back : Z) (entries : list Entry) : list Item :=
  flat_map (fun e => match entry_item unescape include_weekends hours_back e with
                     | Some it => [it]
                     | None => []
                     end) entries.

(** [fetch_items] as a whole, on the entries of the feeds in the order they
    are read. *)
Definition fetch_feed_items (unescape : ustring -> ustring) (include_weekends : bool)
    (hours_back : Z) (entries : list Entry) : list Item :=
  fetch_items (collect_items unescape include_weekends hours_back entries).

(** ** [summarize_overall] (lines 147-213) *)

Definition USE_LLM : bool := true.

(** What the function returns and what it leaves in the globals [USED_LLM]
    and [FALLBACK_REASON]. *)
Record Summary := mkSummary {
  summary_text : ustring;
  USED_LLM : bool;
  FALLBACK_REASON : option ustring
}.

(** [OPENAI_API_KEY] is what [os.getenv] returned; [not OPENAI_API_KEY] holds
    of [None] and of the empty string. *)
Definition has_key (api_key : option ustring) : bool :=
  match api_key with
  | Some k => truthy k
  | None => false
  end.

(** The fallback text of lines 171-174 and 210-213: the first two titles. *)
Definition fallback_titles (numbered_items : list Item) : ustring :=
  py_strip
    (str "1) " ++ match numbered_items with
                  | it :: _ => title it
                  | [] => str "No item"
                  end
     ++ nl ++ nl
     ++ str "2) " ++ match numbered_items with
                     | _ :: it :: _ => title it
                     | _ => []
                     end).

(** The dashes of the prompt: U+2013 and U+2014. *)
Definition en_dash : ustring := [8211%N].
Definition em_dash : ustring := [8212%N].

(** The prompt of lines 179-194. *)
Definition prompt (n : nat) (evidence : ustring) : ustring :=
  str "Role: You are a professional U.S. financial-markets analyst." ++ nl ++ nl
  ++ str "Goal: From the article list below, include ONLY items that are materially relevant to "
  ++ str "U.S. financial markets OR AI-related firms (like Tesla, Nvidia, OpenAI) OR corporate culture OR financial analysts"
  ++ str "Ignore everything else." ++ nl ++ nl
  ++ str "Output rules:" ++ nl
  ++ str "1) Write 3" ++ en_dash ++ str "5 short, numbered paragraphs as '1)', '2)', '3)'. "
  ++ str "   Each paragraph must cover one DISTINCT firm or macro theme" ++ em_dash
  ++ str "do not repeat a firm/theme across paragraphs." ++ nl
  ++ str "2) Each paragraph should be 2" ++ en_dash
  ++ str "3 sentences; each paragraph has about 30 words; neutral tone; factual; no quotes/judgement/conclusion." ++ nl
  ++ str "3) Use inline numeric citations [1]..[" ++ py_str (N.of_nat n)
  ++ str "] that refer ONLY to the evidence list below (do not invent numbers). "
  ++ str "   Place each citation at the end of the clause it supports. If multiple articles support a point, "
  ++ str "   chain ALL relevant citations like [3][7][12]. There is NO upper limit on citations per paragraph, but make sure no repeatitive citations." ++ nl
  ++ str "4) Do NOT re-number sources; keep the evidence numbers exactly as provided. "
  ++ str "   (The system will remap cited sources to 1..K later.)" ++ nl ++ nl
  ++ evidence.

(** [llm] stands for the [try] block of lines 176-205, from the import of
    the client to [resp.choices[0].message.content]: the content for a
    prompt, or the text of the exception raised on the way. *)
Definition summarize_overall (api_key : option ustring)
    (llm : ustring -> ustring + ustring) (numbered_items : list Item) : Summary :=
  let n := List.length numbered_items in
  if (n =? 0)%nat then
    mkSummary (str "No fresh market-moving headlines in the last 24 hours.")
              false (Some (str "NO_ITEMS"))
  else
    let evidence := evidence numbered_items in
    if negb USE_LLM || negb (has_key api_key) then
      mkSummary (fallback_titles numbered_items) false
                (Some (if negb (has_key api_key) then str "NO_API_KEY"
                       else str "USE_LLM_FALSE"))
    else
      match llm (prompt n evidence) with
      | inl content => mkSummary (py_strip content) true None
      | inr e =>
          mkSummary (fallback_titles numbered_items) false
                    (Some (str "OPENAI_ERROR: " ++ e))
      end.

(** No opening bracket of a citation form stands in [s]. *)
Definition no_openers (s : ustring) : bool :=
  negb (occurs (ord "[") s) && negb (occurs (ord "{") s)
  && negb (occurs (ord "(") s).

(** ** [html_paragraphs], as [build_email] defines it (lines 249-254) *)

(** The pattern [\n\s*\n].  After the first newline: the length of the
    longest run of whitespace that ends in a newline. *)
Fixpoint blank_rest (s : ustring) : option nat :=
  match s with
  | [] => None
  | c :: r =>
      if is_space c then
        match blank_rest r with
        | Some k => Some (S k)
        | None => if (c =? 10)%N then Some 1%nat else None
        end
      else None
  end.

Definition match_blank (s : ustring) : option nat :=
  match s with
  | c :: r => if (c =? 10)%N then blank_rest r else None
  | [] => None
  end.

(** [re.split(r"\n\s*\n", s)]: the texts between the matches; [skip] counts
    the characters of the current match still to pass. *)
Fixpoint split_blank_from (skip : nat) (s : ustring) : list ustring :=
  match s with
  | [] => [[]]
  | c :: r =>
      match skip with
      | S k => split_blank_from k r
      | O =>
          match match_blank s with
          | Some k => [] :: split_blank_from k r
          | None =>
              match split_blank_from 0 r with
              | p :: ps => (c :: p) :: ps
              | [] => [[c]]
              end
          end
      end
  end.

Definition split_blank (s : ustring) : list ustring := split_blank_from 0 s.

Fixpoint has_blank (s : ustring) : bool :=
  match s with
  | [] => false
  | _ :: r =>
      match match_blank s with
      | Some _ => true
      | None => has_blank r
      end
  end.

(** [[p.strip() for p in re.split(...) if p.strip()]]. *)
Definition paragraphs (text : ustring) : list ustring :=
  flat_map (fun p => if truthy (py_strip p) then [py_strip p] else [])
           (split_blank (py_strip text)).

(** [stylize]: [re.sub(r"^(\d\))\s*", r"<strong>\1</strong> ", html.escape(s))]. *)
Definition stylize (s : ustring) : ustring :=
  let e := html_escape s in
  match e with
  | d :: c :: r =>
      if is_digit d && (c =? ord ")")%N
      then str "<strong>" ++ [d; ord ")"] ++ str "</strong> " ++ lstrip r
      else e
  | _ => e
  end.

Definition p_open : ustring :=
  str "<p style='margin:8px 0; font-family:Arial,Helvetica,sans-serif; line-height:1.6;'>".

Definition html_paragraphs (text : ustring) : ustring :=
  join [] (map (fun p => p_open ++ stylize p ++ str "</p>") (paragraphs text)).

(** * Properties *)

(** ** Texts *)

Lemma append_nil_r (s : ustring) : s ++ [] = s.
Proof. apply app_nil_r. Qed.

Lemma append_assoc (a b c : ustring) : (a ++ b) ++ c = a ++ (b ++ c).
Proof. symmetry. apply app_assoc. Qed.

Lemma length_append (a b : ustring) :
  List.length (a ++ b) = (List.length a + List.length b)%nat.
Proof. apply length_app. Qed.

Lemma text_eqb_spec (a b : ustring) : reflect (a = b) (text_eqb a b).
Proof.
  revert b. induction a as [|x a IH]; intros [|y b]; simpl;
    try (constructor; congruence).
  destruct (N.eqb_spec x y) as [->|NE]; simpl.
  - destruct (IH b) as [->|NE]; constructor; congruence.
  - constructor. congruence.
Qed.

Lemma str_app a b : str (a ++ b)%string = str a ++ str b.
Proof.
  unfold str. induction a as [|c a IH]; simpl; [reflexivity | now rewrite IH].
Qed.

(** ** Digit runs *)

Lemma is_digit_opening b : is_digit (opening b) = false.
Proof. destruct b; reflexivity. Qed.

Lemma is_digit_closing b : is_digit (closing b) = false.
Proof. destruct b; reflexivity. Qed.

Lemma opening_not_closing b b' : (opening b =? closing b')%N = false.
Proof. destruct b, b'; reflexivity. Qed.

Lemma digits_then_Some cl s g :
  digits_then cl s = Some g ->
  all_digits g = true /\ exists rest, s = g ++ cl :: rest.
Proof.
  revert g; induction s as [|ch r IH]; intros g H; simpl in H; [discriminate|].
  destruct (is_digit ch) eqn:D.
  - destruct (digits_then cl r) as [g'|]; [|discriminate].
    injection H as <-. destruct (IH g' eq_refl) as [A [rest ->]].
    split; [simpl; now rewrite D | now exists rest].
  - destruct (N.eqb_spec ch cl) as [->|]; [|discriminate].
    injection H as <-. split; [reflexivity | now exists r].
Qed.

Lemma digits_then_intro cl g rest :
  is_digit cl = false -> all_digits g = true ->
  digits_then cl (g ++ cl :: rest) = Some g.
Proof.
  intros C; induction g as [|c g IH]; simpl; intros A.
  - now rewrite C, N.eqb_refl.
  - apply andb_true_iff in A as [A1 A2]. now rewrite A1, (IH A2).
Qed.

(** Text that goes on with a character which is neither a digit nor the
    closing bracket changes nothing to a match attempt. *)
Lemma digits_then_app cl o r t :
  is_digit o = false -> (o =? cl)%N = false ->
  digits_then cl (r ++ o :: t) = digits_then cl r.
Proof.
  intros D E; induction r as [|x r IH]; simpl.
  - now rewrite D, E.
  - now rewrite IH.
Qed.

Lemma match_here_Some b s g :
  match_here b s = Some g ->
  digit_run g = true /\ exists rest, s = group0 b g ++ rest.
Proof.
  destruct s as [|ch [|d r]]; cbn [match_here]; try discriminate.
  destruct (N.eqb_spec ch (opening b)) as [->|]; cbn [andb]; [|discriminate].
  destruct (is_digit d) eqn:D; [|discriminate].
  cbn [digits_then]. rewrite D.
  destruct (digits_then (closing b) r) as [g'|] eqn:G; cbn [option_map];
    [|discriminate].
  intros H; injection H as <-.
  destruct (digits_then_Some _ _ _ G) as [A [rest ->]].
  split; [cbn [digit_run all_digits]; now rewrite D, A|].
  exists rest. unfold group0. cbn [app]. now rewrite append_assoc.
Qed.

Lemma match_here_intro b g rest :
  digit_run g = true -> match_here b (group0 b g ++ rest) = Some g.
Proof.
  destruct g as [|d g]; [discriminate|]. cbn [digit_run all_digits]; intros A.
  apply andb_true_iff in A as [D A].
  unfold group0. cbn [app match_here].
  rewrite N.eqb_refl, D. cbn [andb digits_then]. rewrite D.
  rewrite append_assoc. cbn [app].
  now rewrite (digits_then_intro _ _ _ (is_digit_closing b) A).
Qed.

Lemma match_here_app b b' ch r t :
  match_here b ((ch :: r) ++ opening b' :: t) = match_here b (ch :: r).
Proof.
  destruct r as [|d r]; cbn [app match_here].
  - now rewrite is_digit_opening, andb_false_r.
  - destruct ((ch =? opening b)%N && is_digit d); [|reflexivity].
    change (digits_then (closing b) ((d :: r) ++ opening b' :: t)
            = digits_then (closing b) (d :: r)).
    apply digits_then_app; [apply is_digit_opening | apply opening_not_closing].
Qed.

Lemma match_here_not_opening b ch r :
  (ch =? opening b)%N = false -> match_here b (ch :: r) = None.
Proof. intros E. destruct r; cbn [match_here]; [reflexivity | now rewrite E]. Qed.

(** ** The scanner *)

Lemma scan_from_skip b p s : scan_from b (List.length p) (p ++ s) = scan b s.
Proof. induction p as [|c p IH]; simpl; [reflexivity | exact IH]. Qed.

Lemma scan_nil b : scan b [] = [].
Proof. reflexivity. Qed.

Lemma scan_lit b ch r :
  match_here b (ch :: r) = None -> scan b (ch :: r) = Lit ch :: scan b r.
Proof. intros H. unfold scan. cbn [scan_from]. now rewrite H. Qed.

Lemma scan_match b g rest :
  digit_run g = true ->
  scan b (group0 b g ++ rest) = Match g :: scan b rest.
Proof.
  intros A. pose proof (match_here_intro b g rest A) as M.
  unfold scan. unfold group0 in *. cbn [app] in *.
  cbn [scan_from]. rewrite M. f_equal.
  replace (S (List.length g)) with (List.length (g ++ [closing b])).
  - apply scan_from_skip.
  - rewrite length_append. simpl. lia.
Qed.

(** Induction along the scan: the empty text, a character outside every
    match, or a match followed by the rest of the text. *)
Lemma scan_ind b (P : list char -> Prop) :
  P [] ->
  (forall ch r, match_here b (ch :: r) = None -> P r -> P (ch :: r)) ->
  (forall g rest, digit_run g = true -> P rest -> P (group0 b g ++ rest)) ->
  forall s : list char, P s.
Proof.
  intros H0 Hl Hm s.
  assert (G : forall n s, (List.length s <= n)%nat -> P s).
  { induction n as [|n IH]; intros t L.
    - destruct t; [exact H0 | simpl in L; lia].
    - destruct t as [|ch r]; [exact H0|].
      destruct (match_here b (ch :: r)) as [g|] eqn:M.
      + destruct (match_here_Some _ _ _ M) as [A [rest E]].
        rewrite E. apply Hm; [exact A|]. apply IH.
        apply (f_equal (@List.length _)) in E.
        unfold group0 in E. simpl in E, L.
        rewrite length_append, length_append in E. simpl in E. lia.
      + apply Hl; [exact M|]. apply IH. simpl in L. lia. }
  exact (G (List.length s) s (le_n _)).
Qed.

Lemma scan_split b pre g post :
  digit_run g = true ->
  scan b (pre ++ group0 b g ++ post) = scan b pre ++ Match g :: scan b post.
Proof.
  intros A. induction pre as [|ch r M IH|g' rest A' IH] using (scan_ind b).
  - simpl. now apply scan_match.
  - rewrite (scan_lit _ _ _ M). cbn [app]. rewrite <- IH.
    apply scan_lit. unfold group0 at 1. cbn [app].
    rewrite <- M.
    change (ch :: r ++ opening b :: (g ++ [closing b]) ++ post)
      with ((ch :: r) ++ opening b :: (g ++ [closing b]) ++ post).
    apply match_here_app.
  - rewrite append_assoc, !scan_match by assumption. cbn [app]. now rewrite IH.
Qed.

(** ** [re.sub], equation by equation *)

Lemma expand_app f (p q : list piece) :
  expand f (p ++ q) = expand f p ++ expand f q.
Proof.
  induction p as [|[c|g] p IH]; simpl; [reflexivity | |].
  - now rewrite <- IH.
  - rewrite append_assoc. now rewrite <- IH.
Qed.

Lemma re_sub_nil b f : re_sub b f [] = [].
Proof. reflexivity. Qed.

Lemma re_sub_lit b f ch r :
  match_here b (ch :: r) = None ->
  re_sub b f (ch :: r) = ch :: re_sub b f r.
Proof. intros M. unfold re_sub. now rewrite (scan_lit _ _ _ M). Qed.

Lemma re_sub_match b f g rest :
  digit_run g = true ->
  re_sub b f (group0 b g ++ rest) = f g ++ re_sub b f rest.
Proof. intros A. unfold re_sub. now rewrite (scan_match _ _ _ A). Qed.

(** A match is replaced on its own: what stands before it and after it is
    substituted as if the match were not there. *)
Lemma re_sub_split b f pre g post :
  digit_run g = true ->
  re_sub b f (pre ++ group0 b g ++ post)
  = re_sub b f pre ++ f g ++ re_sub b f post.
Proof.
  intros A. unfold re_sub. rewrite (scan_split _ _ _ _ A).
  now rewrite expand_app.
Qed.

Lemma re_finditer_split b pre g post :
  digit_run g = true ->
  re_finditer b (pre ++ group0 b g ++ post)
  = re_finditer b pre ++ g :: re_finditer b post.
Proof.
  intros A. unfold re_finditer. rewrite (scan_split _ _ _ _ A).
  now rewrite flat_map_app.
Qed.

Lemma re_finditer_lit b ch r :
  match_here b (ch :: r) = None -> re_finditer b (ch :: r) = re_finditer b r.
Proof. intros M. unfold re_finditer. now rewrite (scan_lit _ _ _ M). Qed.

Lemma re_finditer_match b g rest :
  digit_run g = true -> re_finditer b (group0 b g ++ rest) = g :: re_finditer b rest.
Proof. intros A. unfold re_finditer. now rewrite (scan_match _ _ _ A). Qed.

(** ** Texts without a match *)

Lemma has_match_cons b ch r :
  has_match b (ch :: r) = false <->
  match_here b (ch :: r) = None /\ has_match b r = false.
Proof.
  cbn [has_match]. destruct (match_here b (ch :: r)); split.
  - discriminate.
  - intros [H _]; discriminate.
  - now split.
  - now intros [_ H].
Qed.

Lemma has_match_skip b ch t :
  (ch =? opening b)%N = false -> has_match b (ch :: t) = has_match b t.
Proof.
  intros E. cbn [has_match]. now rewrite (match_here_not_opening _ _ _ E).
Qed.

Lemma is_digit_not_opening b ch : is_digit ch = true -> (ch =? opening b)%N = false.
Proof.
  intros D. destruct (N.eqb_spec ch (opening b)) as [->|]; [|reflexivity].
  now rewrite is_digit_opening in D.
Qed.

Lemma has_match_digits b g t :
  all_digits g = true -> has_match b (g ++ t) = has_match b t.
Proof.
  induction g as [|d g IH]; cbn [app]; intros A; [reflexivity|].
  cbn [all_digits] in A. apply andb_true_iff in A as [D A].
  rewrite has_match_skip by now apply is_digit_not_opening. now apply IH.
Qed.

Lemma has_match_suffix b p s : has_match b (p ++ s) = false -> has_match b s = false.
Proof.
  induction p as [|c p IH]; cbn [app]; intros H; [exact H|].
  apply has_match_cons in H as [_ H]. now apply IH.
Qed.

(** Without a match [re.sub] returns its argument. *)
Lemma re_sub_no_match b f s : has_match b s = false -> re_sub b f s = s.
Proof.
  induction s as [|ch r IH]; intros H; [reflexivity|].
  apply has_match_cons in H as [M H].
  rewrite (re_sub_lit _ _ _ _ M). now rewrite IH.
Qed.

Lemma re_finditer_no_match b s : has_match b s = false -> re_finditer b s = [].
Proof.
  induction s as [|ch r IH]; intros H; [reflexivity|].
  apply has_match_cons in H as [M H].
  rewrite (re_finditer_lit _ _ _ M). now apply IH.
Qed.

(** ** Canonical markers make no new [{n}] or [(n)] *)

Lemma match_here_alt b ch r :
  match_here b (ch :: r)
  = if (ch =? opening b)%N
    then match digits_then (closing b) r with
         | Some (d :: g) => Some (d :: g)
         | _ => None
         end
    else None.
Proof.
  destruct r as [|d r]; cbn [match_here digits_then].
  - now destruct (ch =? opening b)%N.
  - destruct (ch =? opening b)%N; [|reflexivity]. cbn [andb].
    destruct (is_digit d).
    + now destruct (digits_then (closing b) r).
    + now destruct (d =? closing b)%N.
Qed.

(** When every match is replaced by a text that starts with ["["], no match
    of any pattern begins at a character that was outside the matches. *)
Lemma digits_then_re_sub_bracketed b b' f s g :
  (forall g0, In g0 (re_finditer b s) -> exists r, f g0 = ord "[" :: r) ->
  digits_then (closing b') (re_sub b f s) = Some g ->
  digits_then (closing b') s = Some g.
Proof.
  revert g. induction s as [|x r IH]; intros g F; [discriminate|].
  destruct (match_here b (x :: r)) as [g'|] eqn:M.
  - destruct (match_here_Some _ _ _ M) as [A [rest E]].
    rewrite E in *. rewrite (re_sub_match _ _ _ _ A).
    destruct (F g') as [r0 ->]; [rewrite (re_finditer_match _ _ _ A); now left|].
    cbn [app digits_then].
    change (is_digit (ord "[")) with false. cbv iota.
    pose proof (opening_not_closing Square b') as O. cbn [opening] in O.
    now rewrite O.
  - rewrite (re_sub_lit _ _ _ _ M). cbn [digits_then].
    rewrite (re_finditer_lit _ _ _ M) in F.
    destruct (is_digit x); [|exact (fun H => H)].
    destruct (digits_then (closing b') (re_sub b f r)) as [g0|] eqn:D;
      [|discriminate].
    now rewrite (IH g0 F eq_refl).
Qed.

Lemma match_here_re_sub_bracketed b b' f ch r g :
  (forall g0, In g0 (re_finditer b r) -> exists r0, f g0 = ord "[" :: r0) ->
  match_here b' (ch :: re_sub b f r) = Some g ->
  match_here b' (ch :: r) = Some g.
Proof.
  intros F. rewrite !match_here_alt.
  destruct (ch =? opening b')%N; [|discriminate].
  destruct (digits_then (closing b') (re_sub b f r)) as [g0|] eqn:D;
    [|discriminate].
  now rewrite (digits_then_re_sub_bracketed _ _ _ _ _ F D).
Qed.

Lemma canonical_bracketed (s : ustring) (g0 : ustring) :
  exists r, canonical g0 = ord "[" :: r.
Proof. unfold canonical, group0. now eexists. Qed.

Lemma match_here_re_sub b b' ch r g :
  match_here b' (ch :: re_sub b canonical r) = Some g ->
  match_here b' (ch :: r) = Some g.
Proof.
  apply match_here_re_sub_bracketed. intros g0 _. apply (canonical_bracketed r).
Qed.

Lemma has_match_canonical b g t :
  b <> Square -> digit_run g = true ->
  has_match b (canonical g ++ t) = has_match b t.
Proof.
  intros NS A. unfold canonical, group0. cbn [app].
  assert (A' : all_digits g = true) by (destruct g; [discriminate | exact A]).
  rewrite has_match_skip by (destruct b; [reflexivity | reflexivity | congruence]).
  rewrite append_assoc, (has_match_digits _ _ _ A'). cbn [app].
  apply has_match_skip. destruct b; [reflexivity | reflexivity | congruence].
Qed.

(** After [{n}] (or [(n)]) has been rewritten, no [{n}] (or [(n)]) is left. *)
Lemma has_match_re_sub_self b s :
  b <> Square -> has_match b (re_sub b canonical s) = false.
Proof.
  intros NS. induction s as [|ch r M IH|g rest A IH] using (scan_ind b).
  - reflexivity.
  - rewrite (re_sub_lit _ _ _ _ M). apply has_match_cons. split; [|exact IH].
    destruct (match_here b (ch :: re_sub b canonical r)) as [g|] eqn:E;
      [|reflexivity].
    apply match_here_re_sub in E. congruence.
  - rewrite (re_sub_match _ _ _ _ A). now rewrite has_match_canonical.
Qed.

(** Rewriting the matches of one pattern brings no match of another. *)
Lemma has_match_re_sub_other b b' s :
  b' <> Square -> has_match b' s = false ->
  has_match b' (re_sub b canonical s) = false.
Proof.
  intros NS. induction s as [|ch r M IH|g rest A IH] using (scan_ind b); intros H.
  - reflexivity.
  - apply has_match_cons in H as [M' H].
    rewrite (re_sub_lit _ _ _ _ M). apply has_match_cons. split; [|now apply IH].
    destruct (match_here b' (ch :: re_sub b canonical r)) as [g|] eqn:E;
      [|reflexivity].
    apply match_here_re_sub in E. congruence.
  - rewrite (re_sub_match _ _ _ _ A), has_match_canonical by assumption.
    apply IH. now apply has_match_suffix in H.
Qed.

(** C5. Bracket normalisation is idempotent: once [{n}] and [(n)] have been
    rewritten into [[n]], a second pass finds nothing to rewrite and returns
    the text as it is. *)
Theorem normalize_brackets_idempotent (text : ustring) :
  normalize_brackets (normalize_brackets text) = normalize_brackets text.
Proof.
  unfold normalize_brackets.
  set (u := re_sub Brace canonical text).
  set (v := re_sub Paren canonical u).
  assert (Hb : has_match Brace v = false).
  { apply has_match_re_sub_other; [discriminate|].
    apply has_match_re_sub_self; discriminate. }
  assert (Hp : has_match Paren v = false)
    by (apply has_match_re_sub_self; discriminate).
  rewrite (re_sub_no_match Brace canonical v Hb).
  exact (re_sub_no_match Paren canonical v Hp).
Qed.

(** ** Dictionaries *)

Section DictFacts.
Context {K V : Type}.
Variable keqb : K -> K -> bool.
Hypothesis keqb_spec : forall a b, reflect (a = b) (keqb a b).

Lemma dict_get_set k k' (v : V) d :
  dict_get keqb k (dict_set keqb k' v d)
  = if keqb k k' then Some v else dict_get keqb k d.
Proof.
  induction d as [|[k0 v0] r IH]; simpl; [reflexivity|].
  destruct (keqb_spec k' k0) as [->|N0]; simpl.
  - now destruct (keqb_spec k k0).
  - rewrite IH. destruct (keqb_spec k k0) as [->|]; [|reflexivity].
    destruct (keqb_spec k0 k') as [E|]; [|reflexivity]. now symmetry in E.
Qed.

Lemma dict_get_In k (v : V) d : dict_get keqb k d = Some v -> In (k, v) d.
Proof.
  induction d as [|[k0 v0] r IH]; simpl; [discriminate|].
  destruct (keqb_spec k k0) as [->|].
  - intros H; injection H as ->. now left.
  - intros H. right. now apply IH.
Qed.

Lemma dict_get_None k (d : dict K V) :
  dict_get keqb k d = None <-> ~ In k (dict_keys d).
Proof.
  induction d as [|[k0 v0] r IH]; simpl.
  - split; [intros _ [] | reflexivity].
  - destruct (keqb_spec k k0) as [->|N0].
    + split; [discriminate | intros H; exfalso; apply H; now left].
    + rewrite IH. split; [intros H [E|I]; [now symmetry in E | contradiction]
                         | intros H I; apply H; now right].
Qed.

Lemma In_dict_get k (v : V) d :
  NoDup (dict_keys d) -> In (k, v) d -> dict_get keqb k d = Some v.
Proof.
  induction d as [|[k0 v0] r IH]; simpl; intros ND I; [contradiction|].
  inversion ND as [|? ? NI ND']; subst.
  destruct I as [E|I].
  - injection E as -> ->. now destruct (keqb_spec k k).
  - destruct (keqb_spec k k0) as [->|]; [|now apply IH].
    exfalso. apply NI. change k0 with (fst (k0, v)). now apply in_map.
Qed.

Lemma dict_set_new k (v : V) d :
  dict_get keqb k d = None -> dict_set keqb k v d = d ++ [(k, v)].
Proof.
  induction d as [|[k0 v0] r IH]; simpl; [reflexivity|].
  destruct (keqb_spec k k0); [discriminate|]. intros H. now rewrite IH.
Qed.

Lemma dict_keys_set k (v : V) d :
  dict_keys (dict_set keqb k v d)
  = if dict_contains keqb k d then dict_keys d else dict_keys d ++ [k].
Proof.
  unfold dict_contains.
  induction d as [|[k0 v0] r IH]; simpl; [reflexivity|].
  destruct (keqb_spec k k0) as [->|]; simpl; [reflexivity|].
  rewrite IH. now destruct (dict_get keqb k r).
Qed.

Lemma dict_set_NoDup k (v : V) d :
  NoDup (dict_keys d) -> NoDup (dict_keys (dict_set keqb k v d)).
Proof.
  intros ND. rewrite dict_keys_set. unfold dict_contains.
  destruct (dict_get keqb k d) eqn:G; [exact ND|].
  apply dict_get_None in G.
  apply NoDup_app; [exact ND | repeat constructor; intros [] |].
  intros x I [<-|[]]. contradiction.
Qed.

Lemma dict_set_length k (v : V) d :
  (List.length (dict_set keqb k v d) <= S (List.length d))%nat.
Proof.
  induction d as [|[k0 v0] d IH]; simpl; [lia|].
  destruct (keqb k k0); simpl; lia.
Qed.
End DictFacts.

Lemma N_eqb_spec (a b : N) : reflect (a = b) (a =? b)%N.
Proof. apply N.eqb_spec. Qed.

(** ** The mapping of [renumber_citations] *)

Lemma enumerate_from_app {A} i (l l' : list A) :
  enumerate_from i (l ++ l')
  = enumerate_from i l ++ enumerate_from (i + N.of_nat (List.length l)) l'.
Proof.
  revert i; induction l as [|x l IH]; intros i; simpl.
  - now rewrite N.add_0_r.
  - rewrite IH. do 3 f_equal. lia.
Qed.

Lemma length_enumerate_from {A} (l : list A) k :
  List.length (enumerate_from k l) = List.length l.
Proof. revert k. induction l as [|x l IH]; intros k; simpl; [reflexivity | now rewrite IH]. Qed.

Lemma mapping_of_snoc l n :
  mapping_of (l ++ [n])
  = dict_set N.eqb n (N.of_nat (List.length l) + 1)%N (mapping_of l).
Proof.
  unfold mapping_of, enumerate. rewrite enumerate_from_app, fold_left_app.
  reflexivity.
Qed.

Lemma mapping_of_keys l n : In n (dict_keys (mapping_of l)) <-> In n l.
Proof.
  revert n. induction l as [|x l IH] using rev_ind; intros n; [reflexivity|].
  rewrite mapping_of_snoc, (dict_keys_set _ N_eqb_spec), in_app_iff.
  unfold dict_contains. destruct (dict_get N.eqb x (mapping_of l)) eqn:G.
  - apply (dict_get_In _ N_eqb_spec) in G.
    apply (in_map fst) in G. simpl in G. apply IH in G.
    rewrite IH. split; [now left|]. intros [H|[<-|[]]]; assumption.
  - rewrite in_app_iff, IH. reflexivity.
Qed.

Lemma mapping_of_absent l n :
  ~ In n l -> dict_get N.eqb n (mapping_of l) = None.
Proof.
  intros H. apply (dict_get_None _ N_eqb_spec). now rewrite mapping_of_keys.
Qed.

Lemma mapping_of_present l n :
  In n l -> exists new, dict_get N.eqb n (mapping_of l) = Some new.
Proof.
  intros H. destruct (dict_get N.eqb n (mapping_of l)) eqn:G; [now eexists|].
  apply (dict_get_None _ N_eqb_spec) in G. now rewrite mapping_of_keys in G.
Qed.

(** The new numbers are [1..K], [K] the number of distinct cited numbers. *)
Lemma mapping_of_range l old new :
  dict_get N.eqb old (mapping_of l) = Some new ->
  (1 <= new <= N.of_nat (List.length l))%N.
Proof.
  revert new. induction l as [|x l IH] using rev_ind; intros new; [discriminate|].
  rewrite mapping_of_snoc, (dict_get_set _ N_eqb_spec), length_app. simpl.
  destruct (old =? x)%N.
  - intros H; injection H as <-. lia.
  - intros H. apply IH in H. lia.
Qed.

(** The number cited [i]-th (from 0) is renumbered [i+1]. *)
Lemma mapping_of_nth l i old :
  NoDup l -> nth_error l i = Some old ->
  dict_get N.eqb old (mapping_of l) = Some (N.of_nat i + 1)%N.
Proof.
  revert i old. induction l as [|x l IH] using rev_ind; intros i old ND H.
  - now destruct i.
  - rewrite mapping_of_snoc, (dict_get_set _ N_eqb_spec).
    apply NoDup_remove_2 in ND as NI. rewrite app_nil_r in NI.
    apply NoDup_remove_1 in ND. rewrite app_nil_r in ND.
    destruct (Nat.lt_ge_cases i (List.length l)) as [L|L].
    + rewrite nth_error_app1 in H by exact L.
      destruct (N.eqb_spec old x) as [->|_].
      * exfalso. apply NI. eapply nth_error_In; eassumption.
      * now apply IH.
    + rewrite nth_error_app2 in H by exact L.
      destruct (i - List.length l)%nat as [|j] eqn:D; simpl in H.
      * injection H as ->. rewrite N.eqb_refl. do 2 f_equal. lia.
      * now destruct j.
Qed.

Lemma mapping_of_NoDup l :
  NoDup l ->
  mapping_of l = map (fun '(i, old) => (old, (i + 1)%N)) (enumerate l).
Proof.
  induction l as [|x l IH] using rev_ind; intros ND; [reflexivity|].
  apply NoDup_remove in ND as [ND NI]. rewrite app_nil_r in ND, NI.
  rewrite mapping_of_snoc.
  rewrite (dict_set_new _ N_eqb_spec) by now apply mapping_of_absent.
  rewrite (IH ND). unfold enumerate.
  now rewrite enumerate_from_app, map_app.
Qed.

(** The mapping is one-to-one from the cited numbers onto [1..K]. *)
Lemma mapping_of_bijection l :
  NoDup l ->
  (forall old, In old l <-> exists new, dict_get N.eqb old (mapping_of l) = Some new)
  /\ (forall old new, dict_get N.eqb old (mapping_of l) = Some new ->
                      (1 <= new <= N.of_nat (List.length l))%N)
  /\ (forall old old' new,
         dict_get N.eqb old (mapping_of l) = Some new ->
         dict_get N.eqb old' (mapping_of l) = Some new -> old = old')
  /\ (forall new, (1 <= new <= N.of_nat (List.length l))%N ->
                  exists old, dict_get N.eqb old (mapping_of l) = Some new).
Proof.
  intros ND.
  assert (P : forall old new, dict_get N.eqb old (mapping_of l) = Some new ->
              exists i, nth_error l i = Some old /\ new = (N.of_nat i + 1)%N).
  { intros old new H.
    assert (I : In old l).
    { apply (proj1 (mapping_of_keys l old)).
      apply (dict_get_In _ N_eqb_spec) in H. now apply (in_map fst) in H. }
    apply In_nth_error in I as [i Hi]. exists i. split; [exact Hi|].
    rewrite (mapping_of_nth _ _ _ ND Hi) in H. now injection H. }
  split; [|split; [|split]].
  - intros old. split; [apply mapping_of_present|].
    intros [new H]. destruct (P _ _ H) as [i [Hi _]].
    eapply nth_error_In; eassumption.
  - apply mapping_of_range.
  - intros old old' new H H'.
    destruct (P _ _ H) as [i [Hi E]], (P _ _ H') as [j [Hj E']].
    assert (i = j) by lia. subst j. congruence.
  - intros new [L U].
    destruct (nth_error l (N.to_nat (new - 1))) as [old|] eqn:E.
    + exists old. rewrite (mapping_of_nth _ _ _ ND E). f_equal. lia.
    + apply nth_error_None in E. lia.
Qed.

(** ** Markers in a text *)

Lemma marker_text g post : str "[" ++ g ++ str "]" ++ post = group0 Square g ++ post.
Proof.
  unfold group0. change (str "[") with [opening Square].
  change (str "]") with [closing Square]. cbn [app]. now rewrite append_assoc.
Qed.

Lemma digit_run_all g : digit_run g = true -> all_digits g = true.
Proof. destruct g; [discriminate | exact (fun H => H)]. Qed.

Lemma In_Match_finditer b s g : In (Match g) (scan b s) <-> In g (re_finditer b s).
Proof.
  unfold re_finditer. rewrite in_flat_map. split.
  - intros H. exists (Match g). split; [exact H | now left].
  - intros [[c|g'] [H I]]; [destruct I|]. destruct I as [->|[]]. exact H.
Qed.

Lemma in_range_bounds n max_n :
  in_range n max_n = true <-> (1 <= n <= max_n)%N.
Proof.
  unfold in_range. rewrite andb_true_iff, !N.leb_le. reflexivity.
Qed.

Lemma re_finditer_length b s g :
  In g (re_finditer b s) -> (List.length g + 2 <= List.length s)%nat.
Proof.
  induction s as [|ch r M IH|g' rest A IH] using (scan_ind b).
  - intros [].
  - rewrite (re_finditer_lit _ _ _ M). simpl. intros H. apply IH in H. lia.
  - rewrite (re_finditer_match _ _ _ A).
    rewrite length_append. unfold group0. cbn [List.length].
    rewrite length_append. cbn [List.length].
    intros [<-|H]; [lia|]. apply IH in H. lia.
Qed.

(** ** When the utilities raise *)

Lemma expand_exn_ok repl f ps :
  (forall g, In (Match g) ps -> repl g = Ok (f g)) ->
  expand_exn repl ps = Ok (expand f ps).
Proof.
  induction ps as [|[c|g] ps IH]; intros H; simpl; [reflexivity | |].
  - rewrite IH; [reflexivity|]. intros g I. apply H. now right.
  - rewrite (H g (or_introl eq_refl)). simpl.
    rewrite IH; [reflexivity|]. intros g' I. apply H. now right.
Qed.

Lemma expand_exn_value_error repl ps :
  (forall g, In (Match g) ps ->
             repl g = Raise ValueError \/ exists s, repl g = Ok s) ->
  (exists g, In (Match g) ps /\ repl g = Raise ValueError) ->
  expand_exn repl ps = Raise ValueError.
Proof.
  induction ps as [|[c|g] ps IH]; intros A [g0 [I R]]; [destruct I | |].
  - destruct I as [I|I]; [discriminate|]. simpl.
    rewrite IH; [reflexivity | intros g' I'; apply A; now right | now exists g0].
  - simpl. destruct (A g (or_introl eq_refl)) as [E|[s E]]; rewrite E;
      [reflexivity|]. simpl.
    destruct I as [I|I]; [injection I as ->; congruence|].
    rewrite IH; [reflexivity | intros g' I'; apply A; now right | now exists g0].
Qed.

Lemma py_int_within lim g :
  lim = O \/ (List.length g <= lim)%nat -> py_int lim g = Ok (int_value g).
Proof.
  intros H. unfold py_int.
  destruct H as [->|H]; [reflexivity|].
  replace (lim <? List.length g)%nat with false
    by (symmetry; apply Nat.ltb_ge; exact H).
  now rewrite andb_false_r.
Qed.

Lemma py_int_cases lim g :
  py_int lim g = Ok (int_value g) \/ py_int lim g = Raise ValueError.
Proof.
  unfold py_int.
  destruct ((0 <? lim)%nat && (lim <? List.length g)%nat); [now right | now left].
Qed.

Lemma py_int_too_long lim g :
  lim <> O -> (lim < List.length g)%nat -> py_int lim g = Raise ValueError.
Proof.
  intros NZ L. unfold py_int.
  replace (0 <? lim)%nat with true by (symmetry; apply Nat.ltb_lt; lia).
  replace (lim <? List.length g)%nat with true by (symmetry; now apply Nat.ltb_lt).
  reflexivity.
Qed.

Lemma digits_within_In lim text g :
  digits_within lim text = true -> In g (re_finditer Square text) ->
  lim = O \/ (List.length g <= lim)%nat.
Proof.
  unfold digits_within. intros H I. apply orb_true_iff in H as [H|H].
  - left. now apply Nat.eqb_eq.
  - right. rewrite forallb_forall in H. apply Nat.leb_le. now apply H.
Qed.

Lemma digits_within_false lim text :
  digits_within lim text = false ->
  exists g, In g (re_finditer Square text) /\ py_int lim g = Raise ValueError.
Proof.
  unfold digits_within. intros H. apply orb_false_iff in H as [Z F].
  apply Nat.eqb_neq in Z.
  assert (E : existsb (fun g => negb (List.length g <=? lim)%nat)
                (re_finditer Square text) = true).
  { clear Z. induction (re_finditer Square text) as [|g l IH]; [discriminate|].
    simpl in *. destruct (List.length g <=? lim)%nat; simpl in *;
      [now apply IH | reflexivity]. }
  apply existsb_exists in E as [g [I L]]. exists g. split; [exact I|].
  apply py_int_too_long; [exact Z|].
  apply negb_true_iff, Nat.leb_gt in L. exact L.
Qed.

Lemma digits_within_short lim text :
  lim = O \/ (List.length text <= lim)%nat -> digits_within lim text = true.
Proof.
  unfold digits_within. intros [->|L]; [reflexivity|].
  apply orb_true_iff. right. apply forallb_forall. intros g I.
  apply re_finditer_length in I. apply Nat.leb_le. lia.
Qed.

Lemma digits_within_no_match lim text :
  has_match Square text = false -> digits_within lim text = true.
Proof.
  intros H. unfold digits_within. rewrite (re_finditer_no_match _ _ H).
  apply orb_true_r.
Qed.

Lemma digits_within_split lim pre g post :
  digit_run g = true ->
  digits_within lim (pre ++ group0 Square g ++ post)
  = digits_within lim pre
    && ((lim =? 0)%nat || (List.length g <=? lim)%nat)
    && digits_within lim post.
Proof.
  intros A. unfold digits_within. rewrite (re_finditer_split _ _ _ _ A).
  rewrite forallb_app. cbn [forallb].
  destruct (lim =? 0)%nat; cbn [orb andb]; [reflexivity|].
  now rewrite andb_assoc.
Qed.

(** ** The utilities with the limit off

    What each utility computes when no conversion raises; abbreviations for
    the statements of the lemmas. *)
Local Abbreviation strip_value text max_n :=
  (re_sub Square
     (fun g1 => if in_range (int_value g1) max_n then group0 Square g1 else [])
     text) (only parsing).

Local Abbreviation extract_value text max_n :=
  (fold_left (fun nums g1 => extract_step max_n nums (int_value g1))
             (re_finditer Square text) []) (only parsing).

Local Abbreviation renumber_text text cited :=
  (re_sub Square
     (fun g1 => match dict_get N.eqb (int_value g1) (mapping_of cited) with
                | Some new => str "[" ++ py_str new ++ str "]"
                | None => []
                end) text) (only parsing).

(** Each utility returns when every marker of the text has at most [lim]
    digits (or the limit is off), and raises [ValueError] otherwise. *)
Lemma strip_invalid_citations_eq lim text max_n :
  strip_invalid_citations lim text max_n
  = if digits_within lim text
    then Ok (strip_value text max_n)
    else Raise ValueError.
Proof.
  unfold strip_invalid_citations, re_sub_exn.
  destruct (digits_within lim text) eqn:W.
  - apply expand_exn_ok. intros g I. apply In_Match_finditer in I.
    now rewrite (py_int_within _ _ (digits_within_In _ _ _ W I)).
  - apply digits_within_false in W as [g [I R]].
    apply expand_exn_value_error.
    + intros g' _. destruct (py_int_cases lim g') as [E|E]; rewrite E;
        [right; now eexists | now left].
    + exists g. split; [now apply In_Match_finditer | now rewrite R].
Qed.

Lemma extract_loop_ok lim max_n ms nums :
  (forall g, In g ms -> py_int lim g = Ok (int_value g)) ->
  extract_loop lim max_n ms nums
  = Ok (fold_left (fun nums g1 => extract_step max_n nums (int_value g1)) ms nums).
Proof.
  revert nums. induction ms as [|g ms IH]; intros nums H; simpl; [reflexivity|].
  rewrite (H g (or_introl eq_refl)). simpl. apply IH.
  intros g' I. apply H. now right.
Qed.

Lemma extract_loop_value_error lim max_n ms nums :
  (exists g, In g ms /\ py_int lim g = Raise ValueError) ->
  extract_loop lim max_n ms nums = Raise ValueError.
Proof.
  revert nums. induction ms as [|g ms IH]; intros nums [g0 [I R]]; [destruct I|].
  simpl. destruct (py_int_cases lim g) as [E|E]; rewrite E; [|reflexivity].
  simpl. apply IH. destruct I as [<-|I]; [congruence | now exists g0].
Qed.

Lemma extract_ref_order_eq lim text max_n :
  extract_ref_order lim text max_n
  = if digits_within lim text
    then Ok (extract_value text max_n)
    else Raise ValueError.
Proof.
  unfold extract_ref_order. destruct (digits_within lim text) eqn:W.
  - apply extract_loop_ok. intros g I. apply py_int_within.
    exact (digits_within_In _ _ _ W I).
  - apply digits_within_false in W. now apply extract_loop_value_error.
Qed.

Lemma renumber_repl_ok lim cited g :
  py_int lim g = Ok (int_value g) ->
  (old <- py_int lim g ;;
   if dict_contains N.eqb old (mapping_of cited)
   then new <- dict_getitem N.eqb old (mapping_of cited) ;;
        Ok (str "[" ++ py_str new ++ str "]")
   else Ok [])
  = Ok (match dict_get N.eqb (int_value g) (mapping_of cited) with
        | Some new => str "[" ++ py_str new ++ str "]"
        | None => []
        end).
Proof.
  intros ->. cbn [bind]. unfold dict_contains, dict_getitem.
  now destruct (dict_get N.eqb (int_value g) (mapping_of cited)).
Qed.

Lemma renumber_citations_eq lim text cited :
  renumber_citations lim text cited
  = if digits_within lim text
    then Ok (renumber_text text cited, mapping_of cited)
    else Raise ValueError.
Proof.
  unfold renumber_citations, re_sub_exn, re_sub.
  destruct (digits_within lim text) eqn:W.
  - erewrite expand_exn_ok; [reflexivity|].
    intros g I. apply In_Match_finditer in I. apply renumber_repl_ok.
    apply py_int_within. exact (digits_within_In _ _ _ W I).
  - apply digits_within_false in W as [g [I R]].
    rewrite expand_exn_value_error; [reflexivity | |].
    + intros g' _. destruct (py_int_cases lim g') as [E|E];
        [right | left; now rewrite E].
      rewrite (renumber_repl_ok _ _ _ E). now eexists.
    + exists g. split; [now apply In_Match_finditer | now rewrite R].
Qed.

(** With the limit off every utility returns. *)
Lemma strip_invalid_citations_off text max_n :
  strip_invalid_citations 0 text max_n = Ok (strip_value text max_n).
Proof. now rewrite strip_invalid_citations_eq. Qed.

Lemma extract_ref_order_off text max_n :
  extract_ref_order 0 text max_n = Ok (extract_value text max_n).
Proof. now rewrite extract_ref_order_eq. Qed.

Lemma renumber_citations_off text cited :
  renumber_citations 0 text cited
  = Ok (renumber_text text cited, mapping_of cited).
Proof. now rewrite renumber_citations_eq. Qed.

(** The citation part of [build_email] with the limit off. *)
Lemma build_email_citations_off items overall_raw :
  let max_n := N.of_nat (List.length items) in
  let filtered := strip_value (normalize_brackets overall_raw) max_n in
  let old_order := extract_value filtered max_n in
  build_email_citations 0 items overall_raw
  = match old_order with
    | _ :: _ =>
        refs <- ref_parts items
                  (sorted_by (fun kv1 kv2 => (snd kv1 <=? snd kv2)%N)
                             (mapping_of old_order)) ;;
        Ok (mkBrief (renumber_text filtered old_order) (mapping_of old_order)
                    refs (map (fun '(new, it) => ref_text new it) refs))
    | [] => Ok (mkBrief filtered [] [] [no_references])
    end.
Proof.
  intros max_n filtered old_order. unfold build_email_citations. fold max_n.
  rewrite strip_invalid_citations_off. cbn [bind]. fold filtered.
  rewrite extract_ref_order_off. cbn [bind]. fold old_order.
  destruct old_order as [|n0 nums]; [reflexivity|].
  rewrite renumber_citations_off. reflexivity.
Qed.

(** The citation part of [build_email]: what it returns with the limit
    off, or [ValueError] when the normalised or the filtered text has a
    marker of too many digits. *)
Lemma build_email_citations_eq lim items overall_raw :
  let max_n := N.of_nat (List.length items) in
  let t1 := normalize_brackets overall_raw in
  build_email_citations lim items overall_raw
  = if digits_within lim t1 && digits_within lim (strip_value t1 max_n)
    then build_email_citations 0 items overall_raw
    else Raise ValueError.
Proof.
  intros max_n t1. rewrite build_email_citations_off. fold max_n. fold t1.
  unfold build_email_citations.
  fold max_n. fold t1. rewrite strip_invalid_citations_eq.
  destruct (digits_within lim t1); cbn [andb bind]; [|reflexivity].
  rewrite extract_ref_order_eq.
  destruct (digits_within lim (strip_value t1 max_n)) eqn:W;
    cbn [bind]; [|reflexivity].
  destruct (fold_left _ _ _) as [|n0 nums]; [reflexivity|].
  rewrite renumber_citations_eq, W. reflexivity.
Qed.

(** ** The pipeline on the sample texts *)

(** C3. ["A[3] point, more[3] detail, other[1] claim"] with five evidence
    items, under any limit on the digits of an integer: the first-appearance
    order is [[3; 1]], both [[3]] become [[1]] and [[1]] becomes [[2]], and
    the references pair 1 with the third item and 2 with the first. *)
Theorem repeated_citations_collapse (lim : nat) (i1 i2 i3 i4 i5 : Item) :
  (filtered <- strip_invalid_citations lim
                 (normalize_brackets
                    (str "A[3] point, more[3] detail, other[1] claim")) 5 ;;
   extract_ref_order lim filtered 5)
  = Ok [3; 1]%N
  /\ build_email_citations lim [i1; i2; i3; i4; i5]
       (str "A[3] point, more[3] detail, other[1] claim")
     = Ok {| overall := str "A[1] point, more[1] detail, other[2] claim";
             mapping := [(3, 1); (1, 2)]%N;
             references := [(1%N, i3); (2%N, i1)];
             refs_text_parts := [ref_text 1 i3; ref_text 2 i1] |}.
Proof. destruct lim; split; reflexivity. Qed.

(** C4, as the specification states it, fails: in
    ["See {2} and (5) and [2]"] the marker [(5)] cites the fifth item, so the
    mapping has two entries, the text does not carry [[1]] three times and
    the reference list has two entries. *)
Lemma mixed_brackets_not_one_entry :
  ~ (exists lim brief,
        build_email_citations lim items5 (str "See {2} and (5) and [2]") = Ok brief
        /\ List.length (mapping brief) = 1%nat
        /\ overall brief = str "See [1] and [1] and [1]"
        /\ map (fun r => snd r) (references brief) = [item2]).
Proof.
  intros [lim [brief [E [L _]]]].
  destruct lim; vm_compute in E; injection E as <-; vm_compute in L;
    discriminate.
Qed.

(** C4, amended. In ["See {2} and (5) and [2]"] with five evidence items the
    three bracket forms all become canonical markers; the two citations of 2
    share the entry 2 -> 1 and [(5)] has the entry 5 -> 2; the text carries
    [[1]], [[2]], [[1]] and the reference list has two entries, for the second
    and the fifth item. *)
Theorem mixed_brackets_normalized (lim : nat) (i1 i2 i3 i4 i5 : Item) :
  normalize_brackets (str "See {2} and (5) and [2]")
  = str "See [2] and [5] and [2]"
  /\ build_email_citations lim [i1; i2; i3; i4; i5] (str "See {2} and (5) and [2]")
     = Ok {| overall := str "See [1] and [2] and [1]";
             mapping := [(2, 1); (5, 2)]%N;
             references := [(1%N, i2); (2%N, i5)];
             refs_text_parts := [ref_text 1 i2; ref_text 2 i5] |}.
Proof. destruct lim; split; reflexivity. Qed.

(** C1 at ["[[0]9]"] with five evidence items, under any limit on the digits
    of an integer: deleting [[0]] joins ["["] and ["9]"] into the marker
    [[9]]; nothing is cited ([K = 0]), renumbering is skipped, and the text
    handed on still carries a marker, whose number 9 is not in [1..K].  With
    a valid citation next to it ([K = 1]) the joined marker [[7]] is left as
    well. *)
Theorem joined_marker_out_of_range (lim : nat) :
  build_email_citations lim items5 (str "[[0]9]")
  = Ok {| overall := str "[9]"; mapping := []; references := [];
          refs_text_parts := [str "No references available."] |}
  /\ markers_in_range (str "[9]") 0 = false
  /\ build_email_citations lim items5 (str "[[[0]9]7] [2]")
     = Ok {| overall := str "[7] [1]"; mapping := [(2, 1)]%N;
             references := [(1%N, item2)];
             refs_text_parts := [str "[1] T2 http://a/2"] |}
  /\ markers_in_range (str "[7] [1]") 1 = false.
Proof. destruct lim; repeat split. Qed.

(** C2 at ["[0] and [6] and [[0]6] valid point"] with one evidence item
    ([N = 1], so that [6] is [N+5]), under any limit on the digits of an
    integer: the filter deletes [[0]], [[6]] and the inner [[0]] in its one
    pass, and the deletion of the inner [[0]] joins ["["] and ["6]"] into a
    marker [[6]] that the output still holds; the whole pipeline hands that
    text on.  And at a marker of 4301 digits, which is outside [1..5], the
    filter under the default limit raises [ValueError] where the
    specification has the marker deleted. *)
Theorem strip_invalid_citations_leaves_marker (lim : nat) :
  strip_invalid_citations lim (str "[0] and [6] and [[0]6] valid point") 1
  = Ok (str " and  and [6] valid point")
  /\ re_finditer Square (str " and  and [6] valid point") = [str "6"]
  /\ in_range (int_value (str "6")) 1 = false
  /\ build_email_citations lim [item1] (str "[0] and [6] and [[0]6] valid point")
     = Ok {| overall := str " and  and [6] valid point"; mapping := [];
             references := []; refs_text_parts := [no_references] |}
  /\ in_range (int_value (replicate 4301 (ord "2"))) 5 = false
  /\ strip_invalid_citations default_max_str_digits long_marker 5
     = Raise ValueError.
Proof.
  split; [destruct lim; reflexivity|].
  split; [reflexivity|]. split; [reflexivity|].
  split; [destruct lim; reflexivity|].
  split; vm_compute; reflexivity.
Qed.

(** C6 at a marker of 4301 digits, with the default limit of 4300 digits on
    the conversion of a string to an integer: the marker is a canonical
    marker whose number is outside [1..5], and the filter, the extraction,
    the renumbering and the whole citation part of [build_email] raise
    [ValueError] on it; with the limit off the filter removes it.  A raw text
    whose only marker is [[0]] raises as well: deleting [[0]] joins 2200
    digits before it and 2200 after it into one marker of 4400 digits, on
    which the extraction raises. *)
Theorem long_marker_raises :
  match_here Square long_marker = Some (replicate 4301 (ord "2"))
  /\ in_range (int_value (replicate 4301 (ord "2"))) 5 = false
  /\ strip_invalid_citations default_max_str_digits long_marker 5
     = Raise ValueError
  /\ extract_ref_order default_max_str_digits long_marker 5 = Raise ValueError
  /\ renumber_citations default_max_str_digits long_marker [1%N]
     = Raise ValueError
  /\ build_email_citations default_max_str_digits items5 long_marker
     = Raise ValueError
  /\ strip_invalid_citations 0 long_marker 5 = Ok []
  /\ (let raw := str "[" ++ replicate 2200 (ord "2") ++ str "[0]"
                     ++ replicate 2200 (ord "2") ++ str "]" in
      re_finditer Square (normalize_brackets raw) = [str "0"]
      /\ strip_invalid_citations default_max_str_digits
           (normalize_brackets raw) 5
         = Ok (str "[" ++ replicate 4400 (ord "2") ++ str "]")
      /\ build_email_citations default_max_str_digits items5 raw
         = Raise ValueError).
Proof. repeat split; vm_compute; reflexivity. Qed.

(** C7 at ["no citation "] followed by a marker of 4301 digits, with five
    evidence items: the text has no valid citation (its one marker is
    outside [1..5]; with the limit off the extraction returns the empty list,
    [K = 0]), and under the default limit the citation part of [build_email]
    raises [ValueError] instead of returning the empty mapping and the
    placeholder; with the limit off it returns them. *)
Theorem no_valid_marker_raises :
  let raw := str "no citation " ++ long_marker in
  markers_in_range (normalize_brackets raw) 5 = false
  /\ (filtered <- strip_invalid_citations 0 (normalize_brackets raw) 5 ;;
      extract_ref_order 0 filtered 5) = Ok []
  /\ build_email_citations default_max_str_digits items5 raw = Raise ValueError
  /\ build_email_citations 0 items5 raw
     = Ok {| overall := str "no citation "; mapping := []; references := [];
             refs_text_parts := [no_references] |}.
Proof. repeat split; vm_compute; reflexivity. Qed.


(** ** The evidence list *)

Lemma nth_error_enumerate_from {A} k (l : list A) i :
  nth_error (enumerate_from k l) i
  = option_map (fun x => ((k + N.of_nat i)%N, x)) (nth_error l i).
Proof.
  revert k i; induction l as [|x l IH]; intros k [|i]; simpl; try reflexivity.
  - now rewrite N.add_0_r.
  - rewrite IH. destruct (nth_error l i); simpl; [|reflexivity].
    do 2 f_equal. lia.
Qed.

(** C9. For a non-empty list of evidence items the evidence block is the
    lines joined by newlines, one line per item, in the order of the input;
    the line of the item at position [i] (from 0) carries the index [i+1]
    and reads ["[i+1] title (link): abstract"]. *)
Theorem evidence_in_input_order (numbered_items : list Item) :
  numbered_items <> [] ->
  evidence_block numbered_items
  = Some (join [10%N] (evidence_lines numbered_items))
  /\ List.length (evidence_lines numbered_items) = List.length numbered_items
  /\ forall i it,
      nth_error numbered_items i = Some it ->
      nth_error (evidence_lines numbered_items) i
      = Some (str "[" ++ py_str (N.of_nat i + 1) ++ str "] " ++ title it
                  ++ str " (" ++ link it ++ str "): " ++ abstract it).
Proof.
  intros NE. split; [|split].
  - destruct numbered_items; [congruence | reflexivity].
  - unfold evidence_lines, enumerate. rewrite length_map.
    apply length_enumerate_from.
  - intros i it H. unfold evidence_lines, enumerate.
    rewrite nth_error_map, nth_error_enumerate_from, H. reflexivity.
Qed.

Lemma evidence_in_input_order_witness :
  evidence_block items5
  = Some (str "[1] T1 (http://a/1): abs1" ++ [10%N]
          ++ str "[2] T2 (http://a/2): abs2" ++ [10%N]
          ++ str "[3] T3 (http://a/3): abs3" ++ [10%N]
          ++ str "[4] T4 (http://a/4): " ++ [10%N]
          ++ str "[5] T5 (http://a/5): abs5")
  /\ List.length (evidence_lines items5) = 5%nat
  /\ nth_error (evidence_lines items5) 2 = Some (str "[3] T3 (http://a/3): abs3").
Proof.
  assert (NE : items5 <> []) by discriminate.
  destruct (evidence_in_input_order items5 NE) as [A [B C]].
  split; [exact A | split; [exact B|]].
  exact (C 2%nat item3 eq_refl).
Defined.

(** ** Stable insertion sort *)

Section Sorting.
Context {A : Type}.
Variable before : A -> A -> bool.
Hypothesis before_total : forall x y, before x y = false -> before y x = true.
Hypothesis before_trans :
  forall x y z, before x y = true -> before y z = true -> before x z = true.

Lemma insert_by_perm x l : Permutation (insert_by before x l) (x :: l).
Proof.
  induction l as [|y l IH]; simpl; [reflexivity|].
  destruct (before x y); [reflexivity|].
  rewrite IH. apply perm_swap.
Qed.

Lemma sorted_by_perm l : Permutation (sorted_by before l) l.
Proof.
  induction l as [|x l IH]; simpl; [reflexivity|].
  rewrite insert_by_perm. now constructor.
Qed.

Lemma insert_by_sorted x l :
  StronglySorted (fun a b => before a b = true) l ->
  StronglySorted (fun a b => before a b = true) (insert_by before x l).
Proof.
  induction 1 as [|y l S IH F]; simpl; [repeat constructor|].
  destruct (before x y) eqn:B.
  - constructor; [now constructor|].
    constructor; [exact B|].
    eapply Forall_impl; [|exact F]. intros z Z. exact (before_trans _ _ _ B Z).
  - constructor; [exact IH|].
    apply (Permutation_Forall (Permutation_sym (insert_by_perm x l))).
    constructor; [now apply before_total | exact F].
Qed.

Lemma sorted_by_sorted l :
  StronglySorted (fun a b => before a b = true) (sorted_by before l).
Proof.
  induction l as [|x l IH]; simpl; [constructor | now apply insert_by_sorted].
Qed.
End Sorting.

(** ** De-duplication by link *)

Lemma uniq_by_link_snoc items x :
  uniq_by_link (items ++ [x])
  = dict_set text_eqb (link x) x (uniq_by_link items).
Proof. unfold uniq_by_link. now rewrite fold_left_app. Qed.

Lemma uniq_by_link_NoDup items : NoDup (dict_keys (uniq_by_link items)).
Proof.
  induction items as [|x items IH] using rev_ind; [constructor|].
  rewrite uniq_by_link_snoc. now apply (dict_set_NoDup _ text_eqb_spec).
Qed.

Lemma uniq_by_link_get items k it :
  dict_get text_eqb k (uniq_by_link items) = Some it
  <-> link it = k /\ last_with_link items it.
Proof.
  revert k it. induction items as [|x items IH] using rev_ind; intros k it.
  - split; [discriminate|]. intros [_ [l1 [l2 [E _]]]]. now destruct l1.
  - rewrite uniq_by_link_snoc, (dict_get_set _ text_eqb_spec).
    destruct (text_eqb_spec k (link x)) as [->|NE]; split.
    + intros H; injection H as <-. split; [reflexivity|].
      exists items, []. split; [reflexivity | intros y []].
    + intros [L [l1 [l2 [E F]]]].
      destruct l2 as [|y l2 _] using rev_ind.
      * apply app_inj_tail in E as [_ ->]. reflexivity.
      * change (l1 ++ it :: l2 ++ [y]) with (l1 ++ (it :: l2) ++ [y]) in E.
        rewrite app_assoc in E. apply app_inj_tail in E as [_ ->].
        exfalso. apply (F y); [apply in_or_app; right; now left | now symmetry].
    + intros H. apply IH in H as [L [l1 [l2 [-> F]]]].
      split; [exact L|]. exists l1, (l2 ++ [x]). split.
      * now rewrite <- app_assoc.
      * intros y I. apply in_app_or in I as [I|[<-|[]]]; [now apply F|].
        congruence.
    + intros [L [l1 [l2 [E F]]]].
      destruct l2 as [|y l2 _] using rev_ind.
      * apply app_inj_tail in E as [_ ->]. congruence.
      * change (l1 ++ it :: l2 ++ [y]) with (l1 ++ (it :: l2) ++ [y]) in E.
        rewrite app_assoc in E. apply app_inj_tail in E as [-> ->].
        apply IH. split; [exact L|]. exists l1, l2. split; [reflexivity|].
        intros z I. apply F. apply in_or_app. now left.
Qed.

Lemma uniq_by_link_In items k it :
  In (k, it) (uniq_by_link items) <-> link it = k /\ last_with_link items it.
Proof.
  rewrite <- uniq_by_link_get. split.
  - apply (In_dict_get _ text_eqb_spec), uniq_by_link_NoDup.
  - apply (dict_get_In _ text_eqb_spec).
Qed.

Lemma uniq_by_link_values items it :
  In it (dict_values (uniq_by_link items)) <-> last_with_link items it.
Proof.
  unfold dict_values. rewrite in_map_iff. split.
  - intros [[k v] [E I]]. simpl in E. subst v. now apply uniq_by_link_In in I.
  - intros L. exists (link it, it). split; [reflexivity|].
    now apply uniq_by_link_In.
Qed.

Lemma uniq_by_link_links items :
  map link (dict_values (uniq_by_link items)) = dict_keys (uniq_by_link items).
Proof.
  unfold dict_values, dict_keys. rewrite map_map. apply map_ext_in.
  intros [k v] I. simpl. now apply uniq_by_link_In in I.
Qed.

(** Two items with one link and different abstracts: the later one is kept. *)
Example fetch_items_last_seen :
  fetch_items [mkItem (str "T") (str "http://a/1") (str "first") 10; item2;
               mkItem (str "T") (str "http://a/1") (str "second") 10]
  = [item2; mkItem (str "T") (str "http://a/1") (str "second") 10].
Proof. reflexivity. Qed.

(** C8. The items that [fetch_items] returns have pairwise different links;
    they are exactly the items that are the last of their link in the
    collected list (of two items with one link the later one survives); and
    they come newest first. *)
Theorem fetch_items_unique_sorted (items : list Item) :
  NoDup (map link (fetch_items items))
  /\ (forall it, In it (fetch_items items) <-> last_with_link items it)
  /\ StronglySorted (fun a b => (pub b <= pub a)%Z) (fetch_items items).
Proof.
  unfold fetch_items.
  set (before := fun x y : Item => (pub y <=? pub x)%Z).
  pose proof (sorted_by_perm before (dict_values (uniq_by_link items))) as P.
  split; [|split].
  - apply (Permutation_NoDup (Permutation_map link (Permutation_sym P))).
    rewrite uniq_by_link_links. apply uniq_by_link_NoDup.
  - intros it. rewrite <- uniq_by_link_values. split.
    + apply (Permutation_in _ P).
    + apply (Permutation_in _ (Permutation_sym P)).
  - assert (S : StronglySorted (fun a b => before a b = true)
                  (sorted_by before (dict_values (uniq_by_link items)))).
    { apply sorted_by_sorted; unfold before.
      - intros x y H. apply Z.leb_gt in H. apply Z.leb_le. lia.
      - intros x y z H1 H2. apply Z.leb_le in H1, H2. apply Z.leb_le. lia. }
    revert S. generalize (sorted_by before (dict_values (uniq_by_link items))).
    induction 1 as [|a l S IH F]; constructor; [exact IH|].
    eapply Forall_impl; [|exact F]. intros b B. now apply Z.leb_le.
Qed.

(** ** What a utility returned *)

Lemma strip_invalid_citations_Ok lim text max_n out :
  strip_invalid_citations lim text max_n = Ok out ->
  digits_within lim text = true /\ out = strip_value text max_n.
Proof.
  rewrite strip_invalid_citations_eq. destruct (digits_within lim text);
    [intros H; injection H as <-; now split | discriminate].
Qed.

Lemma extract_ref_order_Ok lim text max_n nums :
  extract_ref_order lim text max_n = Ok nums ->
  digits_within lim text = true /\ nums = extract_value text max_n.
Proof.
  rewrite extract_ref_order_eq. destruct (digits_within lim text);
    [intros H; injection H as <-; now split | discriminate].
Qed.

Lemma renumber_citations_Ok lim text cited r :
  renumber_citations lim text cited = Ok r ->
  digits_within lim text = true /\ r = (renumber_text text cited, mapping_of cited).
Proof.
  rewrite renumber_citations_eq. destruct (digits_within lim text);
    [intros H; injection H as <-; now split | discriminate].
Qed.

Lemma digits_within_marker lim pre g post :
  digit_run g = true ->
  digits_within lim (pre ++ str "[" ++ g ++ str "]" ++ post) = true ->
  digits_within lim pre = true /\ digits_within lim post = true.
Proof.
  intros A. rewrite marker_text, (digits_within_split _ _ _ _ A).
  intros H. apply andb_true_iff in H as [H P]. apply andb_true_iff in H as [H _].
  now split.
Qed.

(** ** First-appearance order and the mapping *)

Lemma mem_In n nums : mem n nums = true <-> In n nums.
Proof.
  unfold mem. rewrite existsb_exists. split.
  - intros [x [I E]]. apply N.eqb_eq in E. now subst.
  - intros I. exists n. split; [exact I | apply N.eqb_refl].
Qed.

Lemma extract_fold_spec max_n ms nums :
  let out :=
    fold_left (fun nums g1 => extract_step max_n nums (int_value g1)) ms nums in
  (NoDup nums -> NoDup out)
  /\ (forall n, In n out <->
                In n nums \/ (in_range n max_n = true /\ In n (map int_value ms))).
Proof.
  revert nums. induction ms as [|g ms IH]; intros nums; simpl.
  - split; [exact (fun H => H)|]. intros n. tauto.
  - unfold extract_step at 2 4. set (n0 := int_value g).
    destruct (in_range n0 max_n) eqn:R; simpl.
    + destruct (mem n0 nums) eqn:M; simpl.
      * destruct (IH nums) as [ND I]. split; [exact ND|].
        intros n. rewrite I. apply mem_In in M.
        split; [tauto|]. intros [H|[H [<-|H']]]; tauto.
      * destruct (IH (nums ++ [n0])) as [ND I]. split.
        -- intros H. apply ND. apply NoDup_app; [exact H | repeat constructor; intros [] |].
           intros x Ix [<-|[]]. apply mem_In in Ix. congruence.
        -- intros n. rewrite I, in_app_iff. simpl.
           split; [intros [[H|[<-|[]]]|H]; tauto|].
           intros [H|[H [<-|H']]]; tauto.
    + destruct (IH nums) as [ND I]. split; [exact ND|].
      intros n. rewrite I. split; [tauto|].
      intros [H|[H [<-|H']]]; [tauto | congruence | tauto].
Qed.

(** The cited numbers are pairwise different. *)
Lemma extract_ref_order_NoDup text max_n :
  NoDup (extract_value text max_n).
Proof.
  destruct (extract_fold_spec max_n (re_finditer Square text) []) as [ND _].
  apply ND. constructor.
Qed.

(** They are the numbers in [1..max_n] of the markers of the text. *)
Lemma extract_ref_order_In text max_n n :
  In n (extract_value text max_n)
  <-> in_range n max_n = true /\ In n (map int_value (re_finditer Square text)).
Proof.
  destruct (extract_fold_spec max_n (re_finditer Square text) []) as [_ I].
  rewrite I. simpl. tauto.
Qed.

Lemma list_getitem_in_range {A} (l : list A) old :
  in_range old (N.of_nat (List.length l)) = true ->
  exists x, list_getitem l (Z.of_N old - 1) = Ok x.
Proof.
  unfold in_range. intros H. apply andb_true_iff in H as [L U].
  apply N.leb_le in L, U. unfold list_getitem.
  replace (Z.of_N old - 1 <? 0)%Z with false by (symmetry; apply Z.ltb_ge; lia).
  replace ((0 <=? Z.of_N old - 1) && (Z.of_N old - 1 <? Z.of_nat (List.length l)))%Z
    with true by (symmetry; apply andb_true_iff; split;
                  [apply Z.leb_le | apply Z.ltb_lt]; lia).
  destruct (nth_error l (Z.to_nat (Z.of_N old - 1))) as [x|] eqn:E; [now exists x|].
  apply nth_error_None in E. lia.
Qed.

Lemma ref_parts_returns numbered kvs :
  Forall (fun kv => in_range (fst kv) (N.of_nat (List.length numbered)) = true) kvs ->
  exists refs, ref_parts numbered kvs = Ok refs.
Proof.
  induction 1 as [|[old new] kvs H F IH]; simpl; [now eexists|].
  destruct (list_getitem_in_range numbered old H) as [x ->].
  destruct IH as [refs ->]. simpl. now eexists.
Qed.

(** With the limit off the citation part of [build_email] returns: the
    numbers it looks up are in [1..N]. *)
Lemma build_email_citations_off_returns items overall_raw :
  exists brief, build_email_citations 0 items overall_raw = Ok brief.
Proof.
  rewrite build_email_citations_off.
  set (max_n := N.of_nat (List.length items)).
  set (text := strip_value (normalize_brackets overall_raw) max_n).
  destruct (extract_value text max_n) as [|n0 nums] eqn:E; [now eexists|].
  set (kvs := sorted_by _ _).
  destruct (ref_parts_returns items kvs) as [refs ->]; [|simpl; now eexists].
  apply Forall_forall. intros [old new] I.
  apply (Permutation_in _ (sorted_by_perm _ _)) in I.
  apply (in_map fst) in I. apply (proj1 (mapping_of_keys _ _)) in I.
  rewrite <- E in I. now apply extract_ref_order_In in I.
Qed.

(** ** Numbers written and read back *)

Lemma str_String c s : str (String c s) = ord c :: str s.
Proof. reflexivity. Qed.

Lemma int_acc_of_uint_acc d acc :
  int_acc (Npos acc) (str (NilEmpty.string_of_uint d)) = Npos (Pos.of_uint_acc d acc).
Proof.
  revert acc. induction d; intros acc;
    cbn [NilEmpty.string_of_uint Pos.of_uint_acc];
    [reflexivity
    | rewrite str_String; cbn [int_acc]; rewrite <- IHd; f_equal;
      vm_compute (digit_value _); lia ..].
Qed.

Lemma int_acc_of_uint d :
  int_acc 0 (str (NilEmpty.string_of_uint d)) = Pos.of_uint d.
Proof.
  induction d; cbn [NilEmpty.string_of_uint Pos.of_uint];
    [reflexivity
    | rewrite str_String; cbn [int_acc]; exact IHd
    | rewrite str_String; cbn [int_acc]; apply int_acc_of_uint_acc ..].
Qed.

Lemma all_digits_of_uint d : all_digits (str (NilEmpty.string_of_uint d)) = true.
Proof.
  induction d; cbn [NilEmpty.string_of_uint];
    [reflexivity | rewrite str_String; exact IHd ..].
Qed.

Lemma int_value_py_str n : int_value (py_str n) = n.
Proof.
  unfold int_value, py_str. rewrite int_acc_of_uint. apply DecimalN.Unsigned.of_to.
Qed.

Lemma digit_run_py_str n : digit_run (py_str n) = true.
Proof.
  pose proof (all_digits_of_uint (N.to_uint n)) as A. unfold py_str.
  destruct n as [|p]; [reflexivity|].
  cbn [N.to_uint] in *.
  destruct (NilEmpty.string_of_uint (Pos.to_uint p)) eqn:E; [|exact A].
  exfalso. apply (DecimalPos.Unsigned.to_uint_nonnil p).
  destruct (Pos.to_uint p); [reflexivity | discriminate ..].
Qed.

(** X1. A number rendered by an f-string is a run of digits that denotes the
    same number, the marker [[n]] that renumbering writes is found again as
    one marker with that number, and [int] reads the digits back as [n]
    whenever the limit on digits is off or not below their count. *)
Theorem written_marker_reads_back (n : N) :
  digit_run (py_str n) = true
  /\ int_value (py_str n) = n
  /\ map int_value (re_finditer Square (str "[" ++ py_str n ++ str "]")) = [n]
  /\ forall lim, py_int lim (py_str n)
                 = if (0 <? lim)%nat && (lim <? List.length (py_str n))%nat
                   then Raise ValueError else Ok n.
Proof.
  split; [apply digit_run_py_str | split; [apply int_value_py_str | split]].
  - change (str "[" ++ py_str n ++ str "]") with (group0 Square (py_str n)).
    rewrite <- (append_nil_r (group0 Square (py_str n))).
    rewrite (re_finditer_match _ _ _ (digit_run_py_str n)). simpl.
    now rewrite int_value_py_str.
  - intros lim. unfold py_int. now rewrite int_value_py_str.
Qed.

(** ** Lengths *)

Lemma length_group0 b g : List.length (group0 b g) = S (S (List.length g)).
Proof. unfold group0. simpl. rewrite length_append. simpl. lia. Qed.

Lemma square_shape_digits g :
  all_digits g = true -> map square_shape g = g.
Proof.
  induction g as [|c g IH]; simpl; intros A; [reflexivity|].
  apply andb_true_iff in A as [D A]. rewrite (IH A). f_equal.
  unfold square_shape.
  destruct (N.eqb_spec c (ord "{")) as [->|]; [discriminate|].
  destruct (N.eqb_spec c (ord "(")) as [->|]; [discriminate|].
  destruct (N.eqb_spec c (ord "}")) as [->|]; [discriminate|].
  destruct (N.eqb_spec c (ord ")")) as [->|]; [discriminate|]. reflexivity.
Qed.

Lemma square_shape_group0 b g :
  all_digits g = true ->
  map square_shape (group0 b g) = group0 Square g.
Proof.
  intros A. unfold group0. cbn [map]. rewrite map_app.
  rewrite (square_shape_digits _ A). now destruct b.
Qed.

Lemma re_sub_canonical_shape b s :
  map square_shape (re_sub b canonical s) = map square_shape s.
Proof.
  induction s as [|ch r M IH|g rest A IH] using (scan_ind b).
  - reflexivity.
  - rewrite (re_sub_lit _ _ _ _ M). simpl. now rewrite IH.
  - rewrite (re_sub_match _ _ _ _ A), !map_app, IH.
    unfold canonical.
    now rewrite !square_shape_group0 by now apply digit_run_all.
Qed.

(** X2. Bracket normalisation changes the shape of brackets and nothing
    else: the text keeps its length, and with every bracket read as a square
    bracket it is the text it was. *)
Theorem normalize_brackets_only_shapes (text : ustring) :
  List.length (normalize_brackets text) = List.length text
  /\ map square_shape (normalize_brackets text) = map square_shape text.
Proof.
  assert (E : map square_shape (normalize_brackets text)
              = map square_shape text).
  { unfold normalize_brackets. now rewrite !re_sub_canonical_shape. }
  split; [|exact E].
  now rewrite <- (length_map square_shape), E, length_map.
Qed.

Lemma strip_value_shrinks text max_n :
  (List.length (strip_value text max_n) <= List.length text)%nat
  /\ (List.length (strip_value text max_n) = List.length text ->
      strip_value text max_n = text).
Proof.
  induction text as [|ch r M IH|g rest A IH] using (scan_ind Square).
  - split; reflexivity.
  - rewrite (re_sub_lit _ _ _ _ M). simpl. destruct IH as [L E].
    split; [lia|]. intros H. f_equal. apply E. lia.
  - rewrite (re_sub_match _ _ _ _ A). cbv beta zeta.
    rewrite !length_append, length_group0. destruct IH as [L E].
    destruct (in_range (int_value g) max_n).
    + rewrite length_group0. split; [lia|]. intros H. f_equal. apply E. lia.
    + simpl. split; [lia|]. intros H. lia.
Qed.

(** X3. Validity filtering only deletes: what it returns is never longer
    than the text, and has the same length exactly when it is the text
    itself. *)
Theorem strip_invalid_citations_shrinks
    (lim : nat) (text : ustring) (max_n : N) (out : ustring) :
  strip_invalid_citations lim text max_n = Ok out ->
  (List.length out <= List.length text)%nat
  /\ (List.length out = List.length text -> out = text).
Proof.
  intros H. apply strip_invalid_citations_Ok in H as [_ ->].
  apply strip_value_shrinks.
Qed.

Lemma strip_invalid_citations_shrinks_witness :
  strip_invalid_citations 4300 (str "a[9]b[1]") 5 = Ok (str "ab[1]")
  /\ (List.length (str "ab[1]") <= List.length (str "a[9]b[1]"))%nat
  /\ strip_invalid_citations 4300 (str "a[2]b[1]") 5 = Ok (str "a[2]b[1]").
Proof.
  split; [reflexivity | split; [|reflexivity]].
  exact (proj1 (strip_invalid_citations_shrinks 4300 (str "a[9]b[1]") 5
                  (str "ab[1]") eq_refl)).
Defined.

(** ** The order of first appearance *)

Lemma NoDup_in_range_length (l : list N) max_n :
  NoDup l -> (forall n, In n l -> in_range n max_n = true) ->
  (N.of_nat (List.length l) <= max_n)%N.
Proof.
  intros ND H.
  assert (I : incl l (map N.of_nat (seq 1 (N.to_nat max_n)))).
  { intros n In_n. apply H, in_range_bounds in In_n.
    apply in_map_iff. exists (N.to_nat n). split; [lia|].
    apply in_seq. lia. }
  apply (NoDup_incl_length ND) in I. rewrite length_map, length_seq in I. lia.
Qed.

(** X4. The cited numbers that [extract_ref_order] returns are pairwise
    different, they are exactly the numbers in [1..max_n] that some marker of
    the text carries, and there are at most [max_n] of them. *)
Theorem extract_ref_order_distinct_valid
    (lim : nat) (summary_text : ustring) (max_n : N) (nums : list N) :
  extract_ref_order lim summary_text max_n = Ok nums ->
  NoDup nums
  /\ (forall n, In n nums
                <-> (1 <= n <= max_n)%N
                    /\ In n (map int_value (re_finditer Square summary_text)))
  /\ (N.of_nat (List.length nums) <= max_n)%N.
Proof.
  intros H. apply extract_ref_order_Ok in H as [_ ->].
  split; [apply extract_ref_order_NoDup | split].
  - intros n. rewrite extract_ref_order_In, in_range_bounds. reflexivity.
  - apply NoDup_in_range_length; [apply extract_ref_order_NoDup|].
    intros n H. now apply extract_ref_order_In in H.
Qed.

Lemma extract_ref_order_distinct_valid_witness :
  extract_ref_order 4300 (str "a[3] b[9] c[1] d[3]") 5 = Ok [3; 1]%N
  /\ NoDup [3; 1]%N
  /\ (In 1%N [3; 1]%N
      <-> (1 <= 1 <= 5)%N
          /\ In 1%N (map int_value
                       (re_finditer Square (str "a[3] b[9] c[1] d[3]")))).
Proof.
  destruct (extract_ref_order_distinct_valid 4300 (str "a[3] b[9] c[1] d[3]") 5
              [3; 1]%N eq_refl) as [A [B _]].
  split; [reflexivity | split; [exact A | exact (B 1%N)]].
Defined.

Lemma mem_app n a b : mem n (a ++ b) = mem n a || mem n b.
Proof. unfold mem. apply existsb_app. Qed.

Lemma mem_filter_not n a l :
  mem n a = false ->
  mem n (filter (fun m => negb (mem m a)) l) = mem n l.
Proof.
  intros H. induction l as [|x l IH]; simpl; [reflexivity|].
  destruct (mem x a) eqn:X; simpl.
  - rewrite IH. destruct (N.eqb_spec n x) as [->|]; [congruence | reflexivity].
  - now rewrite IH.
Qed.

(** Numbers met from a list [acc] on are the numbers met from the empty
    list, after [acc] and without what [acc] holds. *)
Lemma extract_fold_from max_n (ns : list N) acc :
  fold_left (extract_step max_n) ns acc
  = acc ++ filter (fun n => negb (mem n acc))
                  (fold_left (extract_step max_n) ns []).
Proof.
  induction ns as [|n ns IH] using rev_ind.
  - simpl. now rewrite app_nil_r.
  - rewrite !fold_left_app. cbn [fold_left]. rewrite IH.
    set (F := fold_left (extract_step max_n) ns []).
    unfold extract_step.
    destruct (in_range n max_n); cbn [andb]; [|reflexivity].
    rewrite mem_app.
    destruct (mem n acc) eqn:A; cbn [orb negb].
    + destruct (mem n F); cbn [negb]; [reflexivity|].
      rewrite filter_app. cbn [filter]. rewrite A. cbn [negb].
      now rewrite app_nil_r.
    + rewrite (mem_filter_not _ _ _ A).
      destruct (mem n F); cbn [negb]; [reflexivity|].
      rewrite filter_app. cbn [filter]. rewrite A. cbn [negb].
      now rewrite app_assoc.
Qed.

Lemma extract_value_fold text max_n :
  extract_value text max_n
  = fold_left (extract_step max_n) (map int_value (re_finditer Square text)) [].
Proof.
  generalize (@nil N).
  induction (re_finditer Square text) as [|g ms IH]; intros acc; simpl;
    [reflexivity | apply IH].
Qed.

(** X5. First-appearance order.  The numbers cited up to and including a
    marker keep their places whatever text follows: the text after the marker
    only adds, behind them and in its own order of first appearance, the
    numbers not cited before. *)
Theorem extract_ref_order_first_appearance
    (lim : nat) (pre g post : ustring) (max_n : N) (nums : list N) :
  digit_run g = true ->
  extract_ref_order lim (pre ++ str "[" ++ g ++ str "]" ++ post) max_n = Ok nums ->
  exists before after,
    extract_ref_order lim pre max_n = Ok before
    /\ extract_ref_order lim post max_n = Ok after
    /\ let upto := extract_step max_n before (int_value g) in
       nums = upto ++ filter (fun n => negb (mem n upto)) after.
Proof.
  intros A H. apply extract_ref_order_Ok in H as [W ->].
  destruct (digits_within_marker _ _ _ _ A W) as [W1 W2].
  exists (extract_value pre max_n), (extract_value post max_n).
  rewrite !extract_ref_order_eq, W1, W2.
  split; [reflexivity | split; [reflexivity|]]. cbv zeta.
  rewrite !extract_value_fold.
  rewrite marker_text, (re_finditer_split _ _ _ _ A), !map_app, fold_left_app.
  cbn [map app fold_left].
  now rewrite extract_fold_from.
Qed.

Lemma extract_ref_order_first_appearance_witness :
  exists before after,
    extract_ref_order 4300 (str "x[3][1]") 5 = Ok before
    /\ extract_ref_order 4300 (str "[1][4][2][9]") 5 = Ok after
    /\ [3; 1; 2; 4]%N
       = extract_step 5 before 2
           ++ filter (fun n => negb (mem n (extract_step 5 before 2))) after.
Proof.
  exact (extract_ref_order_first_appearance 4300 (str "x[3][1]") (str "2")
           (str "[1][4][2][9]") 5 [3; 1; 2; 4]%N eq_refl eq_refl).
Defined.

(** ** Renumbering *)

(** X6. For pairwise different cited numbers the mapping that
    [renumber_citations] returns sends the number cited [i]-th (from 0) to
    [i+1]; its keys are the cited numbers, its values lie in [1..K], no two
    keys share a value and every value of [1..K] is taken ([K] the count of
    cited numbers). *)
Theorem renumber_citations_mapping_bijective
    (lim : nat) (summary_text : ustring) (cited_nums : list N)
    (new_text : ustring) (mapping : dict N N) :
  NoDup cited_nums ->
  renumber_citations lim summary_text cited_nums = Ok (new_text, mapping) ->
  let K := N.of_nat (List.length cited_nums) in
  (forall i old, nth_error cited_nums i = Some old ->
                 dict_get N.eqb old mapping = Some (N.of_nat i + 1)%N)
  /\ (forall old, In old cited_nums <-> dict_contains N.eqb old mapping = true)
  /\ (forall old new, dict_get N.eqb old mapping = Some new -> (1 <= new <= K)%N)
  /\ (forall old old' new,
         dict_get N.eqb old mapping = Some new ->
         dict_get N.eqb old' mapping = Some new -> old = old')
  /\ (forall new, (1 <= new <= K)%N ->
                  exists old, dict_get N.eqb old mapping = Some new).
Proof.
  intros ND H K. subst K. apply renumber_citations_Ok in H as [_ H].
  injection H as _ ->.
  destruct (mapping_of_bijection cited_nums ND) as [B1 [B2 [B3 B4]]].
  split; [|split; [|split; [|split]]].
  - intros i old H. now apply mapping_of_nth.
  - intros old. rewrite B1. unfold dict_contains.
    destruct (dict_get N.eqb old (mapping_of cited_nums)).
    + split; [reflexivity | intros _; now eexists].
    + split; [intros [new H]; discriminate | discriminate].
  - exact B2.
  - exact B3.
  - exact B4.
Qed.

Lemma renumber_citations_mapping_bijective_witness :
  renumber_citations 4300 (str "a[7][4]") [7; 4; 2]%N
  = Ok (str "a[1][2]", [(7, 1); (4, 2); (2, 3)]%N)
  /\ dict_get N.eqb 7%N [(7, 1); (4, 2); (2, 3)]%N = Some 1%N
  /\ dict_get N.eqb 2%N [(7, 1); (4, 2); (2, 3)]%N = Some 3%N.
Proof.
  assert (ND : NoDup [7; 4; 2]%N).
  { repeat constructor; simpl; intros H;
      repeat (destruct H as [H|H]; [discriminate|]); exact H. }
  destruct (renumber_citations_mapping_bijective 4300 (str "a[7][4]") [7; 4; 2]%N
              (str "a[1][2]") [(7, 1); (4, 2); (2, 3)]%N ND eq_refl)
    as [P _].
  split; [reflexivity|].
  split; [exact (P 0%nat 7%N eq_refl) | exact (P 2%nat 2%N eq_refl)].
Defined.

(** X7. A marker that carries the number cited [i]-th (from 0) is rewritten
    into [[i+1]], at every place where it stands, and the text around it is
    renumbered as if the marker were not there. *)
Theorem renumber_citations_present
    (lim : nat) (pre g post : ustring) (cited_nums : list N) (i : nat)
    (new_text : ustring) (mapping : dict N N) :
  digit_run g = true ->
  NoDup cited_nums ->
  nth_error cited_nums i = Some (int_value g) ->
  renumber_citations lim (pre ++ str "[" ++ g ++ str "]" ++ post) cited_nums
  = Ok (new_text, mapping) ->
  exists before after,
    renumber_citations lim pre cited_nums = Ok (before, mapping)
    /\ renumber_citations lim post cited_nums = Ok (after, mapping)
    /\ new_text
       = before ++ str "[" ++ py_str (N.of_nat i + 1) ++ str "]" ++ after.
Proof.
  intros A ND H R. apply renumber_citations_Ok in R as [W R].
  destruct (digits_within_marker _ _ _ _ A W) as [W1 W2].
  rewrite !renumber_citations_eq, W1, W2.
  assert (E1 : new_text = fst (new_text, mapping)) by reflexivity.
  assert (E2 : mapping = snd (new_text, mapping)) by reflexivity.
  rewrite R in E1, E2. clear R. subst new_text mapping.
  cbn [fst snd].
  do 2 eexists. split; [reflexivity | split; [reflexivity|]].
  rewrite (marker_text g post), (re_sub_split _ _ _ _ _ A). cbv beta.
  rewrite (mapping_of_nth _ _ _ ND H). f_equal.
  now rewrite !append_assoc.
Qed.

Lemma renumber_citations_present_witness :
  exists before after,
    renumber_citations 4300 (str "a[7]b") [7; 4]%N
    = Ok (before, [(7, 1); (4, 2)]%N)
    /\ renumber_citations 4300 (str "c[7]") [7; 4]%N
       = Ok (after, [(7, 1); (4, 2)]%N)
    /\ str "a[1]b[2]c[1]"
       = before ++ str "[" ++ py_str (N.of_nat 1 + 1) ++ str "]" ++ after.
Proof.
  assert (ND : NoDup [7; 4]%N).
  { repeat constructor; simpl; intros H;
      repeat (destruct H as [H|H]; [discriminate|]); exact H. }
  exact (renumber_citations_present 4300 (str "a[7]b") (str "04") (str "c[7]")
           [7; 4]%N 1 (str "a[1]b[2]c[1]") [(7, 1); (4, 2)]%N
           eq_refl ND eq_refl eq_refl).
Defined.

(** ** The reference list *)

Lemma sorted_by_sorted_id {A} (before : A -> A -> bool) l :
  StronglySorted (fun a b => before a b = true) l -> sorted_by before l = l.
Proof.
  induction 1 as [|x l S IH F]; simpl; [reflexivity|].
  rewrite IH. destruct l as [|y l]; [reflexivity|]. simpl.
  inversion F as [|? ? B _]; subst. now rewrite B.
Qed.

Lemma mapping_enumerate_sorted k (l : list N) :
  StronglySorted (fun a b : N * N => (snd a <=? snd b)%N = true)
    (map (fun '(i, old) => (old, (i + 1)%N)) (enumerate_from k l))
  /\ Forall (fun kv : N * N => (k + 1 <= snd kv)%N)
       (map (fun '(i, old) => (old, (i + 1)%N)) (enumerate_from k l)).
Proof.
  revert k. induction l as [|x l IH]; intros k; simpl; [split; constructor|].
  destruct (IH (k + 1)%N) as [S F]. split.
  - constructor; [exact S|].
    eapply Forall_impl; [|exact F]. intros [o v] H. simpl in *.
    apply N.leb_le. lia.
  - constructor; [simpl; lia|].
    eapply Forall_impl; [|exact F]. intros [o v] H. simpl in *. lia.
Qed.

Lemma ref_parts_enumerate numbered k (l : list N) :
  (forall old, In old l -> in_range old (N.of_nat (List.length numbered)) = true) ->
  exists refs,
    ref_parts numbered (map (fun '(i, old) => (old, (i + 1)%N)) (enumerate_from k l))
    = Ok refs
    /\ Forall2 (fun '(i, old) '(new, it) =>
                  new = (i + 1)%N
                  /\ nth_error numbered (N.to_nat old - 1) = Some it)
               (enumerate_from k l) refs.
Proof.
  revert k. induction l as [|x l IH]; intros k H; simpl.
  - exists []. split; [reflexivity | constructor].
  - destruct (IH (k + 1)%N (fun o I => H o (or_intror I))) as [refs [E F]].
    rewrite E.
    pose proof (H x (or_introl eq_refl)) as R.
    destruct (list_getitem_in_range numbered x R) as [it G]. rewrite G. simpl.
    exists (((k + 1)%N, it) :: refs). split; [reflexivity|].
    constructor; [|exact F]. split; [reflexivity|].
    apply in_range_bounds in R.
    unfold list_getitem in G.
    replace (Z.of_N x - 1 <? 0)%Z with false in G by (symmetry; apply Z.ltb_ge; lia).
    destruct ((0 <=? Z.of_N x - 1) && (Z.of_N x - 1 <? Z.of_nat (List.length numbered)))%Z;
      [|discriminate].
    replace (N.to_nat x - 1)%nat with (Z.to_nat (Z.of_N x - 1)) by lia.
    destruct (nth_error numbered (Z.to_nat (Z.of_N x - 1))); [|discriminate].
    now injection G as ->.
Qed.

Lemma build_email_citations_off_references items overall_raw :
  let max_n := N.of_nat (List.length items) in
  let old_order :=
    extract_value (strip_value (normalize_brackets overall_raw) max_n) max_n in
  exists brief,
    build_email_citations 0 items overall_raw = Ok brief
    /\ mapping brief = map (fun '(i, old) => (old, (i + 1)%N)) (enumerate old_order)
    /\ Forall2 (fun '(i, old) '(new, it) =>
                  new = (i + 1)%N
                  /\ nth_error items (N.to_nat old - 1) = Some it)
               (enumerate old_order) (references brief)
    /\ refs_text_parts brief
       = match old_order with
         | [] => [no_references]
         | _ :: _ => map (fun '(new, it) => ref_text new it) (references brief)
         end.
Proof.
  intros max_n old_order. rewrite build_email_citations_off.
  fold max_n. fold old_order.
  pose proof (extract_ref_order_NoDup
                (strip_value (normalize_brackets overall_raw) max_n) max_n) as ND.
  assert (R : forall old, In old old_order -> in_range old max_n = true).
  { intros old I. now apply extract_ref_order_In in I. }
  fold old_order in ND.
  destruct old_order as [|n0 nums] eqn:E.
  - eexists. split; [reflexivity|]. cbn.
    split; [reflexivity | split; [constructor | reflexivity]].
  - assert (M : mapping_of (n0 :: nums)
                = map (fun '(i, old) => (old, (i + 1)%N)) (enumerate (n0 :: nums)))
      by exact (mapping_of_NoDup _ ND).
    assert (Srt : sorted_by (fun kv1 kv2 : N * N => (snd kv1 <=? snd kv2)%N)
                    (mapping_of (n0 :: nums))
                  = map (fun '(i, old) => (old, (i + 1)%N))
                        (enumerate_from 0 (n0 :: nums))).
    { rewrite M. unfold enumerate.
      apply sorted_by_sorted_id.
      exact (proj1 (mapping_enumerate_sorted 0 (n0 :: nums))). }
    rewrite Srt.
    destruct (ref_parts_enumerate items 0 (n0 :: nums) R) as [refs [P F]].
    rewrite P. cbn [bind]. eexists. split; [reflexivity|].
    cbn [mapping references refs_text_parts].
    split; [exact M | split; [exact F | reflexivity]].
Qed.

(** What the citation part of [build_email] returned. *)
Lemma build_email_citations_Ok lim items overall_raw brief :
  build_email_citations lim items overall_raw = Ok brief ->
  let max_n := N.of_nat (List.length items) in
  let filtered := strip_value (normalize_brackets overall_raw) max_n in
  strip_invalid_citations lim (normalize_brackets overall_raw) max_n = Ok filtered
  /\ extract_ref_order lim filtered max_n = Ok (extract_value filtered max_n)
  /\ build_email_citations 0 items overall_raw = Ok brief.
Proof.
  intros H max_n filtered. rewrite build_email_citations_eq in H.
  fold max_n in H. fold filtered in H.
  rewrite strip_invalid_citations_eq, extract_ref_order_eq. fold filtered.
  destruct (digits_within lim (normalize_brackets overall_raw));
    [|discriminate].
  destruct (digits_within lim filtered); [|discriminate].
  now repeat split.
Qed.

(** X8. When the citation part of [build_email] returns, with [old_order]
    the cited numbers that [extract_ref_order] returned for the filtered
    text: the mapping is [old -> i+1] for the number cited [i]-th, and the
    references are, in that order, the new number [i+1] with the evidence
    item at position [old] (from 1); one line of text per reference, or the
    placeholder when nothing is cited. *)
Theorem build_email_citations_references
    (lim : nat) (items : list Item) (overall_raw : ustring) (brief : Brief) :
  build_email_citations lim items overall_raw = Ok brief ->
  let max_n := N.of_nat (List.length items) in
  exists filtered old_order,
    strip_invalid_citations lim (normalize_brackets overall_raw) max_n = Ok filtered
    /\ extract_ref_order lim filtered max_n = Ok old_order
    /\ mapping brief = map (fun '(i, old) => (old, (i + 1)%N)) (enumerate old_order)
    /\ Forall2 (fun '(i, old) '(new, it) =>
                  new = (i + 1)%N
                  /\ nth_error items (N.to_nat old - 1) = Some it)
               (enumerate old_order) (references brief)
    /\ refs_text_parts brief
       = match old_order with
         | [] => [no_references]
         | _ :: _ => map (fun '(new, it) => ref_text new it) (references brief)
         end.
Proof.
  intros H max_n. apply build_email_citations_Ok in H as [S [X V]].
  fold max_n in S, X.
  destruct (build_email_citations_off_references items overall_raw)
    as [brief' [V' [M [F T]]]].
  rewrite V in V'. injection V' as <-. fold max_n in M, F, T.
  do 2 eexists. split; [exact S | split; [exact X|]].
  split; [exact M | split; [exact F | exact T]].
Qed.

Lemma build_email_citations_references_witness :
  exists filtered old_order,
    strip_invalid_citations 4300 (normalize_brackets (str "b[4] a{2} c[4] [7]")) 5
    = Ok filtered
    /\ extract_ref_order 4300 filtered 5 = Ok old_order
    /\ [(4, 1); (2, 2)]%N
       = map (fun '(i, old) => (old, (i + 1)%N)) (enumerate old_order)
    /\ Forall2 (fun '(i, old) '(new, it) =>
                  new = (i + 1)%N
                  /\ nth_error items5 (N.to_nat old - 1) = Some it)
               (enumerate old_order) [(1%N, item4); (2%N, item2)]
    /\ [str "[1] T4 http://a/4"; str "[2] T2 http://a/2"]
       = match old_order with
         | [] => [no_references]
         | _ :: _ => map (fun '(new, it) => ref_text new it)
                         [(1%N, item4); (2%N, item2)]
         end.
Proof.
  exact (build_email_citations_references 4300 items5 (str "b[4] a{2} c[4] [7]")
           {| overall := str "b[1] a[2] c[1] ";
              mapping := [(4, 1); (2, 2)]%N;
              references := [(1%N, item4); (2%N, item2)];
              refs_text_parts := [str "[1] T4 http://a/4"; str "[2] T2 http://a/2"] |}
           eq_refl).
Defined.

(** ** When the utilities raise *)

(** X9. What each utility does under the interpreter's limit on the digits
    of an integer, on every text: with the limit off it returns; under a
    limit it returns the same when every marker of the text has at most
    [lim] digits, and otherwise raises [ValueError], and nothing else. *)
Theorem utilities_return_or_value_error
    (lim : nat) (text : ustring) (max_n : N) (cited_nums : list N) :
  (strip_invalid_citations lim text max_n
   = (if digits_within lim text
      then strip_invalid_citations 0 text max_n else Raise ValueError)
   /\ exists out, strip_invalid_citations 0 text max_n = Ok out)
  /\ (extract_ref_order lim text max_n
      = (if digits_within lim text
         then extract_ref_order 0 text max_n else Raise ValueError)
      /\ exists nums, extract_ref_order 0 text max_n = Ok nums)
  /\ (renumber_citations lim text cited_nums
      = (if digits_within lim text
         then renumber_citations 0 text cited_nums else Raise ValueError)
      /\ exists r, renumber_citations 0 text cited_nums = Ok r).
Proof.
  rewrite strip_invalid_citations_off, extract_ref_order_off,
    renumber_citations_off.
  split; [|split]; (split; [|now eexists]).
  - apply strip_invalid_citations_eq.
  - apply extract_ref_order_eq.
  - apply renumber_citations_eq.
Qed.

(** ** Short texts never raise *)

Lemma length_normalize_brackets text :
  List.length (normalize_brackets text) = List.length text.
Proof.
  rewrite <- (length_map square_shape). unfold normalize_brackets.
  now rewrite !re_sub_canonical_shape, length_map.
Qed.

(** X10. The citation part of [build_email] can end in no exception but
    [ValueError]: [numbered[old - 1]] is never out of range and
    [mapping[old]] never misses.  On a raw text of at most [lim] characters
    (or with the limit off) it returns. *)
Theorem build_email_citations_short
    (lim : nat) (items : list Item) (overall_raw : ustring) :
  (forall e, build_email_citations lim items overall_raw = Raise e ->
             e = ValueError)
  /\ (lim = O \/ (List.length overall_raw <= lim)%nat ->
      exists brief, build_email_citations lim items overall_raw = Ok brief).
Proof.
  rewrite build_email_citations_eq.
  set (max_n := N.of_nat (List.length items)).
  set (t1 := normalize_brackets overall_raw).
  destruct (build_email_citations_off_returns items overall_raw) as [brief V].
  split.
  - intros e. destruct (_ && _); [rewrite V; discriminate|].
    intros H; now injection H as <-.
  - intros L.
    assert (W1 : digits_within lim t1 = true).
    { apply digits_within_short. destruct L as [L|L]; [now left | right].
      unfold t1. now rewrite length_normalize_brackets. }
    assert (W2 : digits_within lim (strip_value t1 max_n) = true).
    { apply digits_within_short. destruct L as [L|L]; [now left | right].
      pose proof (proj1 (strip_value_shrinks t1 max_n)) as S.
      unfold t1 in *. rewrite length_normalize_brackets in S. lia. }
    rewrite W1, W2. now exists brief.
Qed.

Lemma build_email_citations_short_witness :
  exists brief,
    build_email_citations 4300 items5 (str "b[4] a[2] c[4]") = Ok brief.
Proof.
  apply (proj2 (build_email_citations_short 4300 items5 (str "b[4] a[2] c[4]"))).
  right. vm_compute. lia.
Defined.

(** ** Markers one at a time *)

(** X21. Validity filtering acts on each canonical marker on its own: when
    it returns for a text with a marker [[n]], it returns for the text before
    and for the text after, the marker is replaced by the empty string if [n]
    is outside [1..max_n] and stays as it is otherwise, and the text before
    and after is filtered as if the marker were not there.  A text without
    markers is returned unchanged, under any limit. *)
Theorem strip_invalid_citations_markers :
  (forall lim pre g post max_n out,
      digit_run g = true ->
      strip_invalid_citations lim (pre ++ str "[" ++ g ++ str "]" ++ post) max_n
      = Ok out ->
      exists before after,
        strip_invalid_citations lim pre max_n = Ok before
        /\ strip_invalid_citations lim post max_n = Ok after
        /\ out = before
                 ++ (if in_range (int_value g) max_n
                     then str "[" ++ g ++ str "]" else [])
                 ++ after)
  /\ (forall lim text max_n,
         has_match Square text = false ->
         strip_invalid_citations lim text max_n = Ok text).
Proof.
  split.
  - intros lim pre g post max_n out A H.
    apply strip_invalid_citations_Ok in H as [W ->].
    destruct (digits_within_marker _ _ _ _ A W) as [W1 W2].
    rewrite !strip_invalid_citations_eq, W1, W2.
    do 2 eexists. split; [reflexivity | split; [reflexivity|]].
      rewrite (marker_text g post), (re_sub_split _ _ _ _ _ A). reflexivity.
  - intros lim text max_n H.
    rewrite strip_invalid_citations_eq, (digits_within_no_match _ _ H).
    now rewrite (re_sub_no_match _ _ _ H).
Qed.

Lemma strip_invalid_citations_markers_witness :
  (exists before after,
      strip_invalid_citations 4300 (str "a[1]") 5 = Ok before
      /\ strip_invalid_citations 4300 (str "b[0]") 5 = Ok after
      /\ str "a[1]b"
         = before
           ++ (if in_range (int_value (str "12")) 5
               then str "[" ++ str "12" ++ str "]" else [])
           ++ after)
  /\ strip_invalid_citations 4300 (str "no marker (x) {y}") 5
     = Ok (str "no marker (x) {y}").
Proof.
  destruct strip_invalid_citations_markers as [P1 P2].
  split.
  - exact (P1 4300%nat (str "a[1]") (str "12") (str "b[0]") 5%N (str "a[1]b")
              eq_refl eq_refl).
  - exact (P2 4300%nat (str "no marker (x) {y}") 5%N eq_refl).
Defined.

(** X23. Renumbering deletes a marker whose number is not among the cited
    numbers: when it returns for a text with such a marker, it returns for
    the text before and for the text after, and the new text is the two
    results one after the other.  [mapping[old]] never raises [KeyError]:
    the only exception of [renumber_citations] is [ValueError]. *)
Theorem renumber_citations_absent :
  (forall lim pre g post cited new_text mapping,
      digit_run g = true -> ~ In (int_value g) cited ->
      renumber_citations lim (pre ++ str "[" ++ g ++ str "]" ++ post) cited
      = Ok (new_text, mapping) ->
      exists before after,
        renumber_citations lim pre cited = Ok (before, mapping)
        /\ renumber_citations lim post cited = Ok (after, mapping)
        /\ new_text = before ++ after)
  /\ (forall lim text cited e,
         renumber_citations lim text cited = Raise e -> e = ValueError).
Proof.
  split.
  - intros lim pre g post cited new_text mapping A NI R.
    apply renumber_citations_Ok in R as [W R].
    destruct (digits_within_marker _ _ _ _ A W) as [W1 W2].
    rewrite !renumber_citations_eq, W1, W2.
    assert (E1 : new_text = fst (new_text, mapping)) by reflexivity.
    assert (E2 : mapping = snd (new_text, mapping)) by reflexivity.
    rewrite R in E1, E2. clear R. subst new_text mapping.
    cbn [fst snd].
    do 2 eexists. split; [reflexivity | split; [reflexivity|]].
    rewrite (marker_text g post), (re_sub_split _ _ _ _ _ A). cbv beta.
    now rewrite (mapping_of_absent _ _ NI).
  - intros lim text cited e. rewrite renumber_citations_eq.
    destruct (digits_within lim text); [discriminate|].
    intros H. now injection H as <-.
Qed.

(** [[7]] is not cited in [[3; 1]]: it goes, [[3]] and [[1]] are renumbered. *)
Lemma renumber_citations_absent_witness :
  exists before after,
    renumber_citations 4300 (str "a[3]") [3; 1]%N
    = Ok (before, [(3, 1); (1, 2)]%N)
    /\ renumber_citations 4300 (str "b[1]") [3; 1]%N
       = Ok (after, [(3, 1); (1, 2)]%N)
    /\ str "a[1]b[2]" = before ++ after.
Proof.
  destruct renumber_citations_absent as [P1 _].
  apply (P1 4300%nat (str "a[3]") (str "7") (str "b[1]") [3; 1]%N
            (str "a[1]b[2]") [(3, 1); (1, 2)]%N eq_refl);
    [|reflexivity].
  simpl. intros [H|[H|[]]]; discriminate.
Defined.

(** ** Markers of the renumbered text *)

Lemma re_sub_markers_in_range (f : ustring -> ustring) k text :
  (forall g, In g (re_finditer Square text) ->
             exists new, f g = group0 Square (py_str new)
                         /\ in_range new k = true) ->
  markers_in_range (re_sub Square f text) k = true.
Proof.
  unfold markers_in_range.
  induction text as [|ch r M IH|g rest A IH] using (scan_ind Square); intros H.
  - reflexivity.
  - rewrite (re_finditer_lit _ _ _ M) in H.
    rewrite (re_sub_lit _ _ _ _ M), re_finditer_lit; [now apply IH|].
    destruct (match_here Square (ch :: re_sub Square f r)) as [g|] eqn:E;
      [|reflexivity].
    assert (B : forall g0, In g0 (re_finditer Square r) ->
                           exists r0, f g0 = opening Square :: r0).
    { intros g0 I. destruct (H g0 I) as [new [-> _]]. now eexists. }
    apply (match_here_re_sub_bracketed _ _ _ _ _ _ B) in E. congruence.
  - rewrite (re_finditer_match _ _ _ A) in H.
    rewrite (re_sub_match _ _ _ _ A).
    destruct (H g (or_introl eq_refl)) as [new [-> R]].
    rewrite (re_finditer_match _ _ _ (digit_run_py_str new)).
    cbn [forallb]. rewrite int_value_py_str, R.
    apply IH. intros g0 I. apply H. now right.
Qed.

Lemma renumber_citations_markers text cited :
  (forall g, In g (re_finditer Square text) -> In (int_value g) cited) ->
  markers_in_range (fst ((renumber_text text cited, mapping_of cited)))
                   (N.of_nat (List.length cited)) = true.
Proof.
  intros H. cbn [fst].
  apply re_sub_markers_in_range. intros g I.
  destruct (mapping_of_present _ _ (H g I)) as [new E]. rewrite E.
  exists new. split; [reflexivity|].
  apply in_range_bounds. exact (mapping_of_range _ _ _ E).
Qed.

(** X18. When validity filtering leaves only markers with a number in
    [1..N] (no marker made by joining the text around a deleted one) and the
    citation part of [build_email] returns, every marker of the text that it
    hands on has a number in [1..K], [K] the count of entries of the
    mapping, which is the count of cited numbers. *)
Theorem build_email_citations_markers
    (lim : nat) (items : list Item) (overall_raw filtered : ustring)
    (brief : Brief) :
  let max_n := N.of_nat (List.length items) in
  strip_invalid_citations lim (normalize_brackets overall_raw) max_n = Ok filtered ->
  markers_in_range filtered max_n = true ->
  build_email_citations lim items overall_raw = Ok brief ->
  markers_in_range (overall brief) (N.of_nat (List.length (mapping brief))) = true
  /\ exists old_order,
       extract_ref_order lim filtered max_n = Ok old_order
       /\ List.length (mapping brief) = List.length old_order.
Proof.
  intros max_n S R E.
  apply build_email_citations_Ok in E as [S' [X V]].
  fold max_n in S', X. rewrite S in S'. injection S' as Ef.
  rewrite <- Ef in X.
  rewrite build_email_citations_off in V. fold max_n in V. rewrite <- Ef in V.
  assert (C : forall g, In g (re_finditer Square filtered) ->
                        In (int_value g) (extract_value filtered max_n)).
  { intros g I. apply extract_ref_order_In. split.
    - unfold markers_in_range in R. rewrite forallb_forall in R. now apply R.
    - now apply in_map. }
  pose proof (renumber_citations_markers filtered _ C) as MK.
  pose proof (extract_ref_order_NoDup filtered max_n) as ND.
  split; [|exists (extract_value filtered max_n); split; [exact X|]].
  - destruct (extract_value filtered max_n) as [|n0 nums] eqn:O.
    + injection V as <-. cbn [overall mapping List.length].
      unfold markers_in_range.
      destruct (re_finditer Square filtered) as [|g l]; [reflexivity|].
      destruct (C g (or_introl eq_refl)).
    + destruct (ref_parts items _) as [refs|e]; [|discriminate].
      injection V as <-. cbn [overall mapping].
      assert (LM : List.length (mapping_of (n0 :: nums)) = List.length (n0 :: nums)).
      { rewrite (mapping_of_NoDup _ ND), length_map.
        unfold enumerate. apply length_enumerate_from. }
      rewrite LM. exact MK.
  - destruct (extract_value filtered max_n) as [|n0 nums] eqn:O.
    + injection V as <-. reflexivity.
    + destruct (ref_parts items _) as [refs|e]; [|discriminate].
      injection V as <-. cbn [mapping].
      rewrite (mapping_of_NoDup _ ND), length_map.
      unfold enumerate. now rewrite length_enumerate_from.
Qed.

Lemma build_email_citations_markers_witness :
  markers_in_range (str "x b[1] a[2] c[1]") (N.of_nat 2) = true
  /\ exists old_order,
       extract_ref_order 4300 (str "x b[4] a[2] c[4]") 5 = Ok old_order
       /\ 2%nat = List.length old_order.
Proof.
  exact (build_email_citations_markers 4300 items5 (str "x[9] b[4] a{2} c(4)")
           (str "x b[4] a[2] c[4]")
           {| overall := str "x b[1] a[2] c[1]";
              mapping := [(4, 1); (2, 2)]%N;
              references := [(1%N, item4); (2%N, item2)];
              refs_text_parts := [str "[1] T4 http://a/4"; str "[2] T2 http://a/2"] |}
           eq_refl eq_refl eq_refl).
Defined.

(** ** Texts without markers *)

Lemma has_match_brief lim items text :
  has_match Brace text = false ->
  has_match Paren text = false ->
  has_match Square text = false ->
  build_email_citations lim items text
  = Ok {| overall := text; mapping := []; references := [];
          refs_text_parts := [no_references] |}.
Proof.
  intros HB HP HS.
  assert (E : normalize_brackets text = text).
  { unfold normalize_brackets.
    now rewrite (re_sub_no_match Brace _ _ HB), (re_sub_no_match Paren _ _ HP). }
  unfold build_email_citations. rewrite E.
  rewrite strip_invalid_citations_eq, (digits_within_no_match _ _ HS).
  rewrite (re_sub_no_match Square _ _ HS).
  cbn [bind].
  rewrite extract_ref_order_eq, (digits_within_no_match _ _ HS). cbn [bind].
  now rewrite (re_finditer_no_match _ _ HS).
Qed.

(** ** Fetching twice *)

Lemma uniq_by_link_NoDup_links l :
  NoDup (map link l) ->
  uniq_by_link l = map (fun it => (link it, it)) l.
Proof.
  induction l as [|x l IH] using rev_ind; intros ND; [reflexivity|].
  rewrite map_app in ND. simpl in ND.
  apply NoDup_remove in ND as [ND NI]. rewrite app_nil_r in ND, NI.
  rewrite uniq_by_link_snoc, (IH ND), map_app. simpl.
  apply (dict_set_new _ text_eqb_spec).
  apply (dict_get_None _ text_eqb_spec).
  unfold dict_keys. rewrite map_map. simpl. exact NI.
Qed.

Lemma uniq_by_link_length items :
  (List.length (uniq_by_link items) <= List.length items)%nat.
Proof.
  induction items as [|x items IH] using rev_ind; [reflexivity|].
  rewrite uniq_by_link_snoc, length_app. simpl.
  pose proof (dict_set_length text_eqb (link x) x (uniq_by_link items)). lia.
Qed.

Lemma pub_order_total (x y : Item) :
  (pub y <=? pub x)%Z = false -> (pub x <=? pub y)%Z = true.
Proof. intros H. apply Z.leb_gt in H. apply Z.leb_le. lia. Qed.

Lemma pub_order_trans (x y z : Item) :
  (pub y <=? pub x)%Z = true -> (pub z <=? pub y)%Z = true ->
  (pub z <=? pub x)%Z = true.
Proof. intros H1 H2. apply Z.leb_le in H1, H2. apply Z.leb_le. lia. Qed.

(** X11. [fetch_items] returns only items it was given, no more of them than
    it was given, and fetching from its own result changes nothing: a list
    already free of repeated links and newest first is returned as it is. *)
Theorem fetch_items_idempotent (items : list Item) :
  fetch_items (fetch_items items) = fetch_items items
  /\ (List.length (fetch_items items) <= List.length items)%nat
  /\ (forall it, In it (fetch_items items) -> In it items).
Proof.
  set (before := fun x y : Item => (pub y <=? pub x)%Z).
  assert (P : Permutation (fetch_items items) (dict_values (uniq_by_link items)))
    by apply sorted_by_perm.
  split; [|split].
  - assert (ND : NoDup (map link (fetch_items items))).
    { apply (Permutation_NoDup (Permutation_map link (Permutation_sym P))).
      rewrite uniq_by_link_links. apply uniq_by_link_NoDup. }
    assert (S : StronglySorted (fun a b => before a b = true) (fetch_items items)).
    { apply sorted_by_sorted.
      - intros x y. apply pub_order_total.
      - intros x y z. apply pub_order_trans. }
    unfold fetch_items at 1. rewrite (uniq_by_link_NoDup_links _ ND).
    unfold dict_values. rewrite map_map. simpl. rewrite map_id.
    now apply sorted_by_sorted_id.
  - rewrite (Permutation_length P). unfold dict_values. rewrite length_map.
    apply uniq_by_link_length.
  - intros it I. apply (Permutation_in _ P) in I.
    apply uniq_by_link_values in I as [l1 [l2 [-> _]]].
    apply in_or_app. right. now left.
Qed.

Lemma fetch_items_idempotent_witness :
  fetch_items (fetch_items [item3; item1; item3]) = fetch_items [item3; item1; item3]
  /\ In item1 [item3; item1; item3].
Proof.
  destruct (fetch_items_idempotent [item3; item1; item3]) as [A [_ C]].
  split; [exact A|]. apply C. vm_compute. now left.
Defined.

(** ** [html.escape] *)

Lemma replace_char_app old new a b :
  replace_char old new (a ++ b) = replace_char old new a ++ replace_char old new b.
Proof.
  induction a as [|c a IH]; simpl; [reflexivity|].
  destruct ((c =? old)%N); simpl; rewrite IH; [now rewrite append_assoc | reflexivity].
Qed.

Lemma html_escape_app a b : html_escape (a ++ b) = html_escape a ++ html_escape b.
Proof. unfold html_escape. now rewrite !replace_char_app. Qed.

Lemma html_escape_char c : html_escape [c] = escape_char c.
Proof.
  unfold html_escape, escape_char.
  cbn [replace_char].
  destruct (N.eqb_spec c (ord "&")) as [->|_]; [reflexivity|].
  cbn [replace_char].
  destruct (N.eqb_spec c (ord "<")) as [->|_]; [reflexivity|].
  cbn [replace_char].
  destruct (N.eqb_spec c (ord ">")) as [->|_]; [reflexivity|].
  cbn [replace_char].
  destruct (N.eqb_spec c dquote) as [->|_]; [reflexivity|].
  cbn [replace_char].
  destruct (N.eqb_spec c squote) as [->|_]; reflexivity.
Qed.

Lemma html_escape_chars s : html_escape s = escape_chars s.
Proof.
  induction s as [|c s IH]; [reflexivity|].
  change (c :: s) with ([c] ++ s).
  now rewrite html_escape_app, html_escape_char, IH.
Qed.

Lemma occurs_app c a b : occurs c (a ++ b) = occurs c a || occurs c b.
Proof. induction a as [|x a IH]; simpl; [reflexivity | now rewrite IH, orb_assoc]. Qed.

Lemma escape_char_cases c :
  (c = ord "&" /\ escape_char c = str "&amp;")
  \/ (c = ord "<" /\ escape_char c = str "&lt;")
  \/ (c = ord ">" /\ escape_char c = str "&gt;")
  \/ (c = dquote /\ escape_char c = str "&quot;")
  \/ (c = squote /\ escape_char c = str "&#x27;")
  \/ ((c <> ord "&" /\ c <> ord "<" /\ c <> ord ">" /\ c <> dquote
       /\ c <> squote)
      /\ escape_char c = [c]).
Proof.
  unfold escape_char.
  destruct (N.eqb_spec c (ord "&")); [now left|].
  destruct (N.eqb_spec c (ord "<")); [now right; left|].
  destruct (N.eqb_spec c (ord ">")); [now right; right; left|].
  destruct (N.eqb_spec c dquote); [now right; right; right; left|].
  destruct (N.eqb_spec c squote); [now right; right; right; right; left|].
  now right; right; right; right; right.
Qed.

Lemma escape_char_clean c :
  occurs (ord "<") (escape_char c) = false /\ occurs (ord ">") (escape_char c) = false
  /\ occurs dquote (escape_char c) = false /\ occurs squote (escape_char c) = false.
Proof.
  destruct (escape_char_cases c)
    as [[E ->]|[[E ->]|[[E ->]|[[E ->]|[[E ->]|[[N1 [N2 [N3 [N4 N5]]]] ->]]]]]];
    [repeat split .. |].
  cbn [occurs]. rewrite !orb_false_r.
  repeat split; apply N.eqb_neq; assumption.
Qed.

Lemma escape_char_nonempty c r : escape_char c ++ r <> [].
Proof.
  destruct (escape_char_cases c) as [[E ->]|[[E ->]|[[E ->]|[[E ->]|[[E ->]|[E ->]]]]]];
    discriminate.
Qed.

Lemma escape_char_cancel c c' r r' :
  escape_char c ++ r = escape_char c' ++ r' -> c = c' /\ r = r'.
Proof.
  destruct (escape_char_cases c)
    as [[E ->]|[[E ->]|[[E ->]|[[E ->]|[[E ->]|[[E _] ->]]]]]];
    destruct (escape_char_cases c')
      as [[E' ->]|[[E' ->]|[[E' ->]|[[E' ->]|[[E' ->]|[[E' _] ->]]]]]];
    intros H; vm_compute in H; vm_compute in E; vm_compute in E';
    split; congruence.
Qed.

(** X12. [html.escape] works character by character and is compatible with
    concatenation; its result holds none of [<], [>] and the two quotes; and
    it loses nothing: two texts escaped alike are the same text. *)
Theorem html_escape_safe :
  (forall a b, html_escape (a ++ b) = html_escape a ++ html_escape b)
  /\ (forall c, html_escape [c] = escape_char c)
  /\ (forall s, occurs (ord "<") (html_escape s) = false
                /\ occurs (ord ">") (html_escape s) = false
                /\ occurs dquote (html_escape s) = false
                /\ occurs squote (html_escape s) = false)
  /\ (forall s s', html_escape s = html_escape s' -> s = s').
Proof.
  split; [exact html_escape_app | split; [exact html_escape_char | split]].
  - intros s. rewrite html_escape_chars.
    induction s as [|c s [I1 [I2 [I3 I4]]]]; [repeat split|].
    cbn [escape_chars]. rewrite !occurs_app.
    destruct (escape_char_clean c) as [C1 [C2 [C3 C4]]].
    now rewrite C1, C2, C3, C4, I1, I2, I3, I4.
  - intros s s'. rewrite !html_escape_chars. revert s'.
    induction s as [|c s IH]; intros [|c' s'] H.
    + reflexivity.
    + exfalso. cbn [escape_chars] in H. symmetry in H.
      exact (escape_char_nonempty _ _ H).
    + exfalso. cbn [escape_chars] in H. exact (escape_char_nonempty _ _ H).
    + cbn [escape_chars] in H. apply escape_char_cancel in H as [-> H].
      now rewrite (IH _ H).
Qed.

Lemma html_escape_safe_witness :
  html_escape (str "a<b") = html_escape (str "a") ++ html_escape (str "<b")
  /\ html_escape (str "R&D <i>'x'</i>") = (str "R&amp;D &lt;i&gt;&#x27;x&#x27;&lt;/i&gt;")
  /\ (str "x") = (str "x").
Proof.
  destruct html_escape_safe as [A [_ [_ D]]].
  split; [exact (A (str "a") (str "<b")) | split; [reflexivity|]].
  exact (D (str "x") (str "x") eq_refl).
Defined.


(** ** [str.strip] *)

Lemma lstrip_suffix s : exists w, s = w ++ lstrip s.
Proof.
  induction s as [|c r [w IH]]; [now exists []|]. cbn [lstrip].
  destruct (is_space c); [|now exists []].
  exists (c :: w). cbn [app]. now rewrite <- IH.
Qed.

Lemma lstrip_head s c r : lstrip s = (c :: r) -> is_space c = false.
Proof.
  induction s as [|x s IH]; cbn [lstrip]; [discriminate|].
  destruct (is_space x) eqn:X; [exact IH|].
  intros H; injection H as <- <-. exact X.
Qed.

Lemma rstrip_prefix s : exists w, s = rstrip s ++ w.
Proof.
  induction s as [|c r [w IH]]; [now exists []|]. cbn [rstrip].
  destruct (rstrip r) as [|x r'] eqn:R.
  - destruct (is_space c); [now exists (c :: r)|].
    exists w. cbn [app] in *. congruence.
  - exists w. cbn [app] in *. congruence.
Qed.

Lemma rstrip_idempotent s : rstrip (rstrip s) = rstrip s.
Proof.
  induction s as [|c r IH]; [reflexivity|]. cbn [rstrip].
  destruct (rstrip r) as [|x r'] eqn:R.
  - destruct (is_space c) eqn:C; [reflexivity|]. cbn [rstrip]. now rewrite C.
  - cbn [rstrip]. cbn [rstrip] in IH. rewrite IH. reflexivity.
Qed.

Lemma rstrip_head c r : is_space c = false -> exists r', rstrip (c :: r) = c :: r'.
Proof.
  intros C. cbn [rstrip]. destruct (rstrip r); [rewrite C|]; now eexists.
Qed.

Lemma lstrip_py_strip s : lstrip (py_strip s) = py_strip s.
Proof.
  unfold py_strip. destruct (lstrip s) as [|c r] eqn:L; [reflexivity|].
  destruct (rstrip_head c r (lstrip_head _ _ _ L)) as [r' ->].
  cbn [lstrip]. now rewrite (lstrip_head _ _ _ L).
Qed.

Lemma py_strip_idempotent s : py_strip (py_strip s) = py_strip s.
Proof.
  unfold py_strip at 1. rewrite lstrip_py_strip. unfold py_strip.
  apply rstrip_idempotent.
Qed.

Lemma rstrip_py_strip s : rstrip (py_strip s) = py_strip s.
Proof. unfold py_strip. apply rstrip_idempotent. Qed.

Lemma rstrip_length s : (List.length (rstrip s) <= List.length s)%nat.
Proof.
  destruct (rstrip_prefix s) as [w E]. rewrite E at 2. rewrite length_append. lia.
Qed.

Lemma rstrip_app_space r c :
  is_space c = true -> rstrip (r ++ [c]) = rstrip r.
Proof.
  intros C. induction r as [|x r IH]; cbn [app rstrip]; [now rewrite C|]. now rewrite IH.
Qed.

Lemma rstrip_fixed_last r c :
  rstrip (r ++ [c]) = r ++ [c] -> is_space c = false.
Proof.
  intros H. destruct (is_space c) eqn:C; [|reflexivity].
  rewrite (rstrip_app_space _ _ C) in H.
  pose proof (rstrip_length r) as L. rewrite H, length_append in L. simpl in L. lia.
Qed.

Lemma rstrip_app_fixed x b :
  b <> [] -> rstrip b = b -> rstrip (x ++ b) = x ++ b.
Proof.
  intros NE B. induction x as [|c x IH]; cbn [app rstrip]; [exact B|]. rewrite IH.
  destruct (x ++ b) eqn:E; [|reflexivity].
  destruct x; [simpl in E; congruence | discriminate].
Qed.

(** ** Tags *)

Lemma has_tag_cons c r :
  has_tag (c :: r) = false <->
  match_tag (c :: r) = None /\ has_tag r = false.
Proof.
  cbn [has_tag]. destruct (match_tag (c :: r)); split.
  - discriminate.
  - intros [H _]; discriminate.
  - now split.
  - now intros [_ H].
Qed.

Lemma before_gt_Some r k :
  before_gt r = Some k ->
  exists body rest,
    r = body ++ ord ">" :: rest /\ List.length body = k
    /\ before_gt body = None.
Proof.
  revert k. induction r as [|c r IH]; intros k; cbn [before_gt]; [discriminate|].
  destruct (N.eqb_spec c (ord ">")) as [->|NE].
  - intros H; injection H as <-. now exists [], r.
  - destruct (before_gt r) as [k'|]; cbn [option_map]; [|discriminate].
    intros H; injection H as <-.
    destruct (IH k' eq_refl) as [body [rest [-> [L B]]]].
    exists (c :: body), rest. cbn [app List.length before_gt].
    repeat split; [now rewrite L|].
    destruct (N.eqb_spec c (ord ">")); [contradiction|]. now rewrite B.
Qed.

Lemma before_gt_app r q k : before_gt r = Some k -> before_gt (r ++ q) = Some k.
Proof.
  revert k. induction r as [|c r IH]; intros k; cbn [app before_gt];
    [discriminate|].
  destruct ((c =? ord ">")%N); [exact (fun H => H)|].
  destruct (before_gt r) as [k'|]; cbn [option_map]; [|discriminate].
  intros H. now rewrite (IH k' eq_refl).
Qed.

Lemma match_tag_app p q k : match_tag p = Some k -> match_tag (p ++ q) = Some k.
Proof.
  destruct p as [|c r]; cbn [app match_tag]; [discriminate|].
  destruct ((c =? ord "<")%N); [|discriminate].
  destruct (before_gt r) as [[|k']|] eqn:B; try discriminate.
  intros H. now rewrite (before_gt_app _ q _ B).
Qed.

Lemma has_tag_suffix p s : has_tag (p ++ s) = false -> has_tag s = false.
Proof.
  induction p as [|c p IH]; cbn [app]; intros H; [exact H|].
  apply has_tag_cons in H as [_ H]. now apply IH.
Qed.

Lemma has_tag_prefix p q : has_tag (p ++ q) = false -> has_tag p = false.
Proof.
  induction p as [|c p IH]; [reflexivity|]. cbn [app]. intros H.
  apply has_tag_cons in H as [M H]. apply has_tag_cons. split; [|now apply IH].
  destruct (match_tag (c :: p)) as [k|] eqn:E; [|reflexivity].
  apply (match_tag_app _ q) in E. cbn [app] in E. congruence.
Qed.

Lemma strip_tags_from_skip p s :
  strip_tags_from (List.length p) (p ++ s) = strip_tags s.
Proof. induction p as [|c p IH]; simpl; [reflexivity | exact IH]. Qed.

Lemma strip_tags_lit c r :
  match_tag (c :: r) = None ->
  strip_tags (c :: r) = c :: strip_tags r.
Proof. intros M. unfold strip_tags. cbn [strip_tags_from]. now rewrite M. Qed.

Lemma strip_tags_match s k :
  match_tag s = Some k ->
  exists body rest,
    s = ord "<" :: body ++ ord ">" :: rest
    /\ List.length body = k /\ strip_tags s = strip_tags rest.
Proof.
  intros M. destruct s as [|c r]; [discriminate|].
  pose proof M as M'. cbn [match_tag] in M'.
  destruct (N.eqb_spec c (ord "<")) as [->|]; [|discriminate].
  destruct (before_gt r) as [[|k']|] eqn:B; try discriminate.
  injection M' as <-.
  destruct (before_gt_Some _ _ B) as [body [rest [-> [L _]]]].
  exists body, rest. repeat split; [exact L|].
  unfold strip_tags. cbn [strip_tags_from]. rewrite M.
  replace (S (S k')) with (List.length (body ++ [ord ">"]))
    by (rewrite length_append, L; simpl; lia).
  replace (body ++ ord ">" :: rest) with ((body ++ [ord ">"]) ++ rest)
    by now rewrite append_assoc.
  apply strip_tags_from_skip.
Qed.

Lemma strip_tags_no_gt r : before_gt r = None -> strip_tags r = r.
Proof.
  induction r as [|c r IH]; [reflexivity|]. cbn [before_gt].
  destruct ((c =? ord ">")%N); [discriminate|].
  destruct (before_gt r) eqn:B; [discriminate|]. intros _.
  rewrite strip_tags_lit; [now rewrite IH|].
  cbn [match_tag]. rewrite B. now destruct ((c =? ord "<")%N).
Qed.

Lemma has_tag_strip_tags s : has_tag (strip_tags s) = false.
Proof.
  assert (G : forall n s, (List.length s <= n)%nat -> has_tag (strip_tags s) = false).
  { clear s. induction n as [|n IH]; intros s L.
    - destruct s; [reflexivity | simpl in L; lia].
    - destruct s as [|c r]; [reflexivity|].
      destruct (match_tag (c :: r)) as [k|] eqn:M.
      + destruct (strip_tags_match _ _ M) as [body [rest [E [_ ->]]]].
        apply IH. apply (f_equal (@List.length char)) in E. simpl in E, L.
        rewrite length_append in E. simpl in E. lia.
      + rewrite (strip_tags_lit _ _ M). apply has_tag_cons.
        split; [|apply IH; simpl in L; lia].
        pose proof M as M'. cbn [match_tag] in M'. cbn [match_tag].
        destruct ((c =? ord "<")%N); [|reflexivity].
        destruct (before_gt r) as [[|k]|] eqn:B; try discriminate.
        * destruct r as [|x r]; [discriminate|]. cbn [before_gt] in B.
          destruct (N.eqb_spec x (ord ">")) as [->|];
            [|destruct (before_gt r); discriminate].
          rewrite strip_tags_lit by reflexivity. reflexivity.
        * rewrite (strip_tags_no_gt _ B). now rewrite B. }
  exact (G (List.length s) s (le_n _)).
Qed.

Lemma has_tag_py_strip s : has_tag s = false -> has_tag (py_strip s) = false.
Proof.
  intros H. unfold py_strip.
  destruct (lstrip_suffix s) as [w E]. rewrite E in H.
  apply has_tag_suffix in H.
  destruct (rstrip_prefix (lstrip s)) as [w' E']. rewrite E' in H.
  now apply has_tag_prefix in H.
Qed.

(** X13. Whatever [html.unescape] returns, the text that [clean_text]
    returns holds no tag, and neither starts nor ends with whitespace:
    stripping it again or removing tags again changes nothing; the empty
    text stays empty. *)
Theorem clean_text_clean (unescape : ustring -> ustring) (t : ustring) :
  let c := clean_text unescape t in
  has_tag c = false
  /\ strip_tags c = c
  /\ py_strip c = c
  /\ (forall ch r, c = (ch :: r) -> is_space ch = false)
  /\ (forall r ch, c = r ++ [ch] -> is_space ch = false)
  /\ clean_text unescape [] = [].
Proof.
  intros c.
  assert (S : py_strip c = c).
  { subst c. destruct t; [reflexivity|]. apply py_strip_idempotent. }
  assert (T : has_tag c = false).
  { subst c. destruct t; [reflexivity|].
    apply has_tag_py_strip, has_tag_strip_tags. }
  split; [exact T | split; [|split; [exact S | split; [|split]]]].
  - clear S. induction c as [|x c IH]; [reflexivity|].
    apply has_tag_cons in T as [M T].
    rewrite (strip_tags_lit _ _ M). now rewrite (IH T).
  - intros ch r E. rewrite <- S in E. unfold py_strip in E.
    destruct (lstrip c) as [|x l] eqn:L; [discriminate|].
    destruct (rstrip_head x l (lstrip_head _ _ _ L)) as [r' R].
    rewrite R in E. injection E as <- _. exact (lstrip_head _ _ _ L).
  - intros r ch E. apply (rstrip_fixed_last r). rewrite <- E.
    rewrite <- S. apply rstrip_py_strip.
  - reflexivity.
Qed.

Lemma clean_text_clean_witness :
  clean_text (fun s => s)
    ([160%N] ++ str " <b>Fed</b> holds <i>rates</i> " ++ [12288%N])
  = str "Fed holds rates"
  /\ is_space (ord "F") = false /\ is_space (ord "s") = false.
Proof.
  pose proof (clean_text_clean (fun s => s)
                ([160%N] ++ str " <b>Fed</b> holds <i>rates</i> " ++ [12288%N]))
    as [_ [_ [_ [A [B _]]]]].
  split; [reflexivity|]. split.
  - exact (A (ord "F") (str "ed holds rates") eq_refl).
  - exact (B (str "Fed holds rate") (ord "s") eq_refl).
Defined.

(** ** The abstract of an item *)

Lemma starts_with_refl s : starts_with s s = true.
Proof. induction s as [|c s IH]; simpl; [reflexivity | now rewrite N.eqb_refl]. Qed.

Lemma starts_with_app s t : starts_with s (s ++ t) = true.
Proof. induction s as [|c s IH]; simpl; [reflexivity | now rewrite N.eqb_refl]. Qed.

Lemma contains_nil s : contains [] s = true.
Proof. destruct s; reflexivity. Qed.

Lemma contains_app_r sub x t : contains sub (x ++ sub ++ t) = true.
Proof.
  induction x as [|c x IH]; cbn [app].
  - destruct (sub ++ t) eqn:E; simpl; rewrite <- E, starts_with_app; reflexivity.
  - cbn [contains]. rewrite IH. apply orb_true_r.
Qed.

Lemma contains_spec sub s :
  contains sub s = true <-> exists a b, s = a ++ sub ++ b.
Proof.
  split.
  - induction s as [|c s IH].
    + destruct sub; [|discriminate]. intros _. now exists [], [].
    + cbn [contains]. intros H. apply orb_true_iff in H as [H|H].
      * exists []. simpl.
        clear IH. revert c s H. induction sub as [|x sub IHs]; intros c s H.
        -- now exists (c :: s).
        -- simpl in H. apply andb_true_iff in H as [E H].
           apply N.eqb_eq in E. subst x.
           destruct s as [|c' s'].
           ++ destruct sub; [now exists [] | discriminate].
           ++ destruct sub as [|y sub'].
              ** now exists (c' :: s').
              ** destruct (IHs c' s' H) as [b ->]. now exists b.
      * destruct (IH H) as [a [b ->]]. now exists (c :: a), b.
  - intros [a [b ->]]. apply contains_app_r.
Qed.

Lemma stripped_head c ch r :
  py_strip c = c -> c = (ch :: r) -> is_space ch = false.
Proof.
  intros S E. rewrite <- S in E. unfold py_strip in E.
  destruct (lstrip c) as [|x l] eqn:L; [discriminate|].
  destruct (rstrip_head x l (lstrip_head _ _ _ L)) as [r' R].
  rewrite R in E. injection E as <- _. exact (lstrip_head _ _ _ L).
Qed.

Lemma stripped_rstrip c : py_strip c = c -> rstrip c = c.
Proof. intros S. rewrite <- S. apply rstrip_py_strip. Qed.

Lemma clean_text_stripped unescape t :
  py_strip (clean_text unescape t) = clean_text unescape t.
Proof. destruct t; [reflexivity|]. apply py_strip_idempotent. Qed.

Lemma py_strip_join s d :
  py_strip s = s -> py_strip d = d -> s <> [] -> d <> [] ->
  py_strip (s ++ str " " ++ d) = s ++ str " " ++ d.
Proof.
  intros Ss Sd Ns Nd. unfold py_strip.
  destruct s as [|ch r]; [congruence|].
  cbn [app]. cbn [lstrip]. rewrite (stripped_head _ _ _ Ss eq_refl).
  change (ch :: r ++ str " " ++ d) with ((ch :: r) ++ str " " ++ d).
  rewrite <- append_assoc.
  apply rstrip_app_fixed; [exact Nd | now apply stripped_rstrip].
Qed.

(** X14. The abstract built from the cleaned summary and description of an
    entry starts with the summary and holds the description; it is empty
    only when both are; and, like them, it neither starts nor ends with
    whitespace. *)
Theorem combine_abstract_holds_both (unescape : ustring -> ustring) (a b : ustring) :
  let summary := clean_text unescape a in
  let description := clean_text unescape b in
  let combined := combine_abstract summary description in
  starts_with summary combined = true
  /\ contains description combined = true
  /\ (combined = [] <-> summary = [] /\ description = [])
  /\ py_strip combined = combined.
Proof.
  intros summary description combined.
  pose proof (clean_text_stripped unescape a) as Ss. fold summary in Ss.
  pose proof (clean_text_stripped unescape b) as Sd. fold description in Sd.
  subst combined. unfold combine_abstract.
  destruct description as [|dc dr] eqn:D; cbn [truthy andb].
  - split; [apply starts_with_refl | split; [apply contains_nil | split; [|exact Ss]]].
    split; [intros ->; now split | now intros [-> _]].
  - rewrite <- D in *.
    assert (Nd : description <> []) by (rewrite D; discriminate).
    destruct (contains description summary) eqn:C; cbn [negb].
    + split; [apply starts_with_refl | split; [exact C | split; [|exact Ss]]].
      split; [|now intros [_ ?]].
      intros E. rewrite E in C. rewrite D in C. discriminate.
    + destruct summary as [|sc sr] eqn:S; cbn [truthy].
      * split; [reflexivity | split; [|split; [|exact Sd]]].
        -- apply contains_spec. exists [], []. simpl. now rewrite append_nil_r.
        -- split; [contradiction | now intros [_ ?]].
      * rewrite <- S in *.
        assert (Ns : summary <> []) by (rewrite S; discriminate).
        rewrite (py_strip_join _ _ Ss Sd Ns Nd).
        split; [apply starts_with_app | split; [|split]].
        -- apply contains_spec. exists (summary ++ str " "), [].
           now rewrite append_nil_r, append_assoc.
        -- split; [|now intros [? _]]. intros E. exfalso.
           rewrite S in E. discriminate.
        -- now apply py_strip_join.
Qed.

(** ** The items that are fetched *)

Lemma fetch_items_In items it : In it (fetch_items items) -> In it items.
Proof.
  intros I. unfold fetch_items in I.
  apply (Permutation_in _ (sorted_by_perm _ _)) in I.
  apply uniq_by_link_values in I as [l1 [l2 [-> _]]].
  apply in_or_app. right. now left.
Qed.

(** X15. Every item that [fetch_items] returns comes from an entry with a
    non-empty cleaned title and a non-empty link, that was within the window
    when it was tested and, unless weekends are included, dated on a
    weekday; its fields are the cleaned title, the link, the combined
    abstract and the parsed date of that entry. *)
Theorem fetch_feed_items_valid
    (unescape : ustring -> ustring) (include_weekends : bool) (hours_back : Z)
    (entries : list Entry) (it : Item) :
  In it (fetch_feed_items unescape include_weekends hours_back entries) ->
  exists e,
    In e entries
    /\ title it = clean_text unescape (e_title e) /\ title it <> []
    /\ link it = e_link e /\ link it <> []
    /\ abstract it = combine_abstract (clean_text unescape (e_summary e))
                                      (clean_text unescape (e_description e))
    /\ pub it = e_pub e
    /\ (e_now e - hours_back * 3600000000 <= pub it)%Z
    /\ (include_weekends = false -> (e_weekday e < 5)%Z).
Proof.
  intros I. apply fetch_items_In in I. unfold collect_items in I.
  apply in_flat_map in I as [e [Ie I]]. exists e. split; [exact Ie|].
  unfold entry_item in I.
  destruct (clean_text unescape (e_title e)) as [|tc tr] eqn:T; [destruct I|].
  destruct (e_link e) as [|lc lr] eqn:L; [destruct I|].
  cbn [truthy negb orb] in I.
  destruct (negb include_weekends && (5 <=? e_weekday e)%Z) eqn:W; [destruct I|].
  destruct (within_window (e_now e) hours_back (e_pub e)) eqn:Win; [|destruct I].
  destruct I as [<-|[]]. cbn [title link abstract pub].
  repeat split; try discriminate.
  - unfold within_window in Win. now apply Z.leb_le in Win.
  - intros ->. cbn [negb andb] in W. now apply Z.leb_gt in W.
Qed.

Lemma fetch_feed_items_valid_witness :
  exists e,
    In e [mkEntry (str "<b>Fed</b> holds") (str "http://a/1") (str "Rates") (str "Rates unchanged")
                  100 2 100]
    /\ title (mkItem (str "Fed holds") (str "http://a/1") (str "Rates Rates unchanged") 100)
       = clean_text (fun s => s) (e_title e).
Proof.
  destruct (fetch_feed_items_valid (fun s => s) false 26
              [mkEntry (str "<b>Fed</b> holds") (str "http://a/1") (str "Rates") (str "Rates unchanged")
                       100 2 100]
              (mkItem (str "Fed holds") (str "http://a/1") (str "Rates Rates unchanged") 100))
    as [e [I [T _]]].
  - vm_compute. now left.
  - exists e. split; [exact I | exact T].
Defined.

(** ** The summary *)

(** X16. Whatever the key and the generator, [summarize_overall] leaves
    [USED_LLM] true exactly when it leaves no fallback reason; the text it
    returns neither starts nor ends with whitespace; with no item it is the
    fixed message with reason [NO_ITEMS]; and the text is the generator's,
    stripped, exactly when [USED_LLM] is true. *)
Theorem summarize_overall_outcome
    (api_key : option ustring) (llm : ustring -> ustring + ustring)
    (numbered_items : list Item) :
  let r := summarize_overall api_key llm numbered_items in
  (USED_LLM r = true <-> FALLBACK_REASON r = None)
  /\ py_strip (summary_text r) = summary_text r
  /\ (numbered_items = [] ->
      r = mkSummary (str "No fresh market-moving headlines in the last 24 hours.")
                    false (Some (str "NO_ITEMS")))
  /\ (USED_LLM r = true <->
      numbered_items <> [] /\ has_key api_key = true
      /\ exists content,
          llm (prompt (List.length numbered_items) (evidence numbered_items))
          = inl content
          /\ summary_text r = py_strip content).
Proof.
  intros r. subst r. unfold summarize_overall.
  destruct numbered_items as [|it0 rest]; cbn [List.length Nat.eqb].
  - cbn. repeat split; try discriminate; try reflexivity.
    intros [H _]. congruence.
  - set (items := it0 :: rest). cbn [USE_LLM negb orb].
    destruct (has_key api_key) eqn:K; cbn [negb].
    + destruct (llm (prompt (S (List.length rest)) (evidence items))) as [content|e] eqn:L;
        cbn [USED_LLM FALLBACK_REASON summary_text].
      * repeat split; try discriminate; try reflexivity.
        -- apply py_strip_idempotent.
        -- now exists content.
      * repeat split; try discriminate.
        -- apply py_strip_idempotent.
        -- intros [_ [_ [content [H _]]]]. discriminate.
    + cbn [USED_LLM FALLBACK_REASON summary_text].
      repeat split; try discriminate.
      * apply py_strip_idempotent.
      * intros [_ [H _]]. discriminate.
Qed.

Lemma summarize_overall_outcome_witness :
  summarize_overall (Some (str "k")) (fun _ => inl (str " 1) Stocks rose [1]. ")) []
  = mkSummary (str "No fresh market-moving headlines in the last 24 hours.")
              false (Some (str "NO_ITEMS"))
  /\ FALLBACK_REASON (summarize_overall (Some (str "k")) (fun _ => inl (str " 1) Stocks rose [1]. ")) items5)
     = None.
Proof.
  split.
  - exact (proj1 (proj2 (proj2 (summarize_overall_outcome (Some (str "k"))
             (fun _ => inl (str " 1) Stocks rose [1]. ")) []))) eq_refl).
  - exact (proj1 (proj1 (summarize_overall_outcome (Some (str "k"))
             (fun _ => inl (str " 1) Stocks rose [1]. ")) items5)) eq_refl).
Defined.

(** ** The fallback text in the brief *)


(** ** The fallback text in the brief *)

Lemma has_match_no_opening b s :
  occurs (opening b) s = false -> has_match b s = false.
Proof.
  induction s as [|c s IH]; [reflexivity|]. cbn [occurs]. intros H.
  apply orb_false_iff in H as [E H].
  rewrite has_match_skip by exact E. now apply IH.
Qed.

Lemma occurs_py_strip c s : occurs c s = false -> occurs c (py_strip s) = false.
Proof.
  intros H. unfold py_strip.
  destruct (lstrip_suffix s) as [w E]. rewrite E, occurs_app in H.
  apply orb_false_iff in H as [_ H].
  destruct (rstrip_prefix (lstrip s)) as [w' E']. rewrite E', occurs_app in H.
  now apply orb_false_iff in H as [H _].
Qed.

Lemma no_openers_brief lim items text :
  no_openers text = true ->
  build_email_citations lim items text
  = Ok {| overall := text; mapping := []; references := [];
          refs_text_parts := [str "No references available."] |}.
Proof.
  unfold no_openers. intros H.
  apply andb_true_iff in H as [H HP]. apply andb_true_iff in H as [HS HB].
  apply negb_true_iff in HS, HB, HP.
  apply has_match_brief; now apply has_match_no_opening.
Qed.

Lemma no_openers_py_strip s : no_openers s = true -> no_openers (py_strip s) = true.
Proof.
  unfold no_openers. intros H.
  apply andb_true_iff in H as [H HP]. apply andb_true_iff in H as [HS HB].
  apply negb_true_iff in HS, HB, HP.
  now rewrite !occurs_py_strip.
Qed.

Lemma no_openers_app a b :
  no_openers (a ++ b) = no_openers a && no_openers b.
Proof.
  unfold no_openers. rewrite !occurs_app.
  destruct (occurs (ord "[") a), (occurs (ord "{") a), (occurs (ord "(") a),
    (occurs (ord "[") b), (occurs (ord "{") b), (occurs (ord "(") b); reflexivity.
Qed.

(** X17. When the summary is a fallback (no item, no key, or a failed
    generation) and the first two titles hold no opening bracket, the brief
    carries the fallback text as it is, an empty mapping and the placeholder
    line for the references. *)
Theorem fallback_brief
    (lim : nat) (api_key : option ustring) (llm : ustring -> ustring + ustring)
    (items : list Item) :
  let r := summarize_overall api_key llm items in
  USED_LLM r = false ->
  (forall it, In it (firstn 2 items) -> no_openers (title it) = true) ->
  build_email_citations lim items (summary_text r)
  = Ok {| overall := summary_text r; mapping := []; references := [];
          refs_text_parts := [str "No references available."] |}.
Proof.
  intros r U T. apply no_openers_brief.
  assert (F : no_openers (fallback_titles items) = true).
  { unfold fallback_titles. apply no_openers_py_strip.
    rewrite !no_openers_app.
    destruct items as [|it0 [|it1 rest]].
    - reflexivity.
    - rewrite (T it0) by (simpl; tauto). reflexivity.
    - rewrite (T it0), (T it1) by (simpl; tauto). reflexivity. }
  subst r. unfold summarize_overall in *.
  destruct items as [|it0 rest]; [reflexivity|].
  cbn [List.length Nat.eqb USE_LLM negb orb] in *.
  destruct (has_key api_key); cbn [negb] in *; [|exact F].
  destruct (llm _); [discriminate U | exact F].
Qed.

Lemma fallback_brief_witness :
  build_email_citations 4300 items5 (str "1) T1" ++ nl ++ nl ++ str "2) T2")
  = Ok {| overall := str "1) T1" ++ nl ++ nl ++ str "2) T2"; mapping := [];
          references := [];
          refs_text_parts := [str "No references available."] |}.
Proof.
  apply (fallback_brief 4300 None (fun _ => inr (str "unused")) items5 eq_refl).
  intros it I. simpl in I. destruct I as [<-|[<-|[]]]; reflexivity.
Defined.

(** ** Markers of the renumbered text *)

(** ** The paragraphs of the HTML summary *)




Lemma has_blank_cons c r :
  has_blank (c :: r) = false <->
  match_blank (c :: r) = None /\ has_blank r = false.
Proof.
  cbn [has_blank]. destruct (match_blank (c :: r)); split.
  - discriminate.
  - intros [H _]; discriminate.
  - now split.
  - now intros [_ H].
Qed.

Lemma blank_rest_app p q k :
  blank_rest p = Some k -> exists k', blank_rest (p ++ q) = Some k'.
Proof.
  revert k. induction p as [|c p IH]; intros k; cbn [app blank_rest];
    [discriminate|].
  destruct (is_space c); [|discriminate].
  destruct (blank_rest p) as [k0|] eqn:B.
  - intros _. destruct (IH k0 eq_refl) as [k' ->]. now eexists.
  - destruct ((c =? 10)%N); [|discriminate]. intros _.
    destruct (blank_rest (p ++ q)); now eexists.
Qed.

Lemma match_blank_app p q k :
  match_blank p = Some k -> exists k', match_blank (p ++ q) = Some k'.
Proof.
  destruct p as [|c p]; cbn [app match_blank]; [discriminate|].
  destruct ((c =? 10)%N); [|discriminate]. apply blank_rest_app.
Qed.

Lemma has_blank_suffix p s : has_blank (p ++ s) = false -> has_blank s = false.
Proof.
  induction p as [|c p IH]; cbn [app]; intros H; [exact H|].
  apply has_blank_cons in H as [_ H]. now apply IH.
Qed.

Lemma has_blank_prefix p q : has_blank (p ++ q) = false -> has_blank p = false.
Proof.
  induction p as [|c p IH]; [reflexivity|]. cbn [app]. intros H.
  apply has_blank_cons in H as [M H]. apply has_blank_cons. split; [|now apply IH].
  destruct (match_blank (c :: p)) as [k|] eqn:E; [|reflexivity].
  destruct (match_blank_app _ q _ E) as [k' E']. cbn [app] in E'. congruence.
Qed.

Lemma has_blank_py_strip s : has_blank s = false -> has_blank (py_strip s) = false.
Proof.
  intros H. unfold py_strip.
  destruct (lstrip_suffix s) as [w E]. rewrite E in H.
  apply has_blank_suffix in H.
  destruct (rstrip_prefix (lstrip s)) as [w' E']. rewrite E' in H.
  now apply has_blank_prefix in H.
Qed.

(** The first text of a split is a prefix of the text that is split. *)
Lemma split_blank_first s :
  exists p ps rest, split_blank_from 0 s = p :: ps /\ s = p ++ rest.
Proof.
  induction s as [|c r [p [ps [rest [E R]]]]]; [now exists [], [], []|].
  cbn [split_blank_from].
  destruct (match_blank (c :: r)) as [k|].
  - now exists [], (split_blank_from k r), (c :: r).
  - rewrite E. exists (c :: p), ps, rest. split; [reflexivity|].
    cbn [app]. now rewrite <- R.
Qed.

Lemma split_blank_pieces skip s p :
  In p (split_blank_from skip s) -> has_blank p = false.
Proof.
  revert skip p. induction s as [|c r IH]; intros skip p.
  - simpl. intros [<-|[]]. reflexivity.
  - cbn [split_blank_from]. destruct skip as [|k]; [|apply IH].
    destruct (match_blank (c :: r)) as [k|] eqn:M.
    + intros [<-|I]; [reflexivity | now apply (IH k)].
    + destruct (split_blank_first r) as [p0 [ps [rest [E R]]]].
      rewrite E. intros [<-|I].
      * apply has_blank_cons. split.
        -- destruct (match_blank (c :: p0)) as [k|] eqn:M0; [|reflexivity].
           destruct (match_blank_app _ rest _ M0) as [k' M'].
           cbn [app] in M'. rewrite <- R in M'. congruence.
        -- apply (IH 0%nat). rewrite E. now left.
      * apply (IH 0%nat). rewrite E. now right.
Qed.

(** X20. Every paragraph that [html_paragraphs] renders is non-empty, neither
    starts nor ends with whitespace, and holds no blank line (no two
    newlines with only whitespace between them); a text of whitespace only
    gives no paragraph, and so the empty HTML. *)
Theorem paragraphs_clean (text : ustring) :
  (forall p, In p (paragraphs text) ->
             p <> [] /\ py_strip p = p /\ has_blank p = false)
  /\ (py_strip text = [] -> paragraphs text = [] /\ html_paragraphs text = []).
Proof.
  split.
  - intros p I. unfold paragraphs in I. apply in_flat_map in I as [q [Iq I]].
    destruct (py_strip q) as [|c r] eqn:S; [destruct I|].
    cbn [truthy] in I. destruct I as [<-|[]].
    rewrite <- S. split; [rewrite S; discriminate | split].
    + apply py_strip_idempotent.
    + apply has_blank_py_strip. exact (split_blank_pieces _ _ _ Iq).
  - intros E. unfold html_paragraphs, paragraphs. rewrite E. split; reflexivity.
Qed.

Lemma paragraphs_clean_witness :
  paragraphs (str "1) Stocks rose [1]." ++ nl ++ [160; 12288]%N ++ nl ++ nl
              ++ str "2) Oil fell [2]. " ++ nl)
  = [str "1) Stocks rose [1]."; str "2) Oil fell [2]."]
  /\ str "2) Oil fell [2]." <> []
  /\ paragraphs [32; 160; 8195]%N = [].
Proof.
  split; [reflexivity|]. split.
  - refine (proj1 (proj1 (paragraphs_clean
        (str "1) Stocks rose [1]." ++ nl ++ [160; 12288]%N ++ nl ++ nl
         ++ str "2) Oil fell [2]. " ++ nl))
        (str "2) Oil fell [2].") _)).
    vm_compute. right. now left.
  - exact (proj1 (proj2 (paragraphs_clean [32; 160; 8195]%N) eq_refl)).
Defined.

(** ** No citation *)

(** X22. When the citation part of [build_email] returns an empty mapping,
    no valid citation was found: the extraction returned the empty list, the
    text handed on is the filtered text, not renumbered, there is no
    reference and the reference lines are the placeholder alone.  A text
    without any marker comes back as it was, under any limit. *)
Theorem no_citation_brief :
  (forall lim items overall_raw brief,
      build_email_citations lim items overall_raw = Ok brief ->
      mapping brief = [] ->
      let max_n := N.of_nat (List.length items) in
      exists filtered,
        strip_invalid_citations lim (normalize_brackets overall_raw) max_n
        = Ok filtered
        /\ extract_ref_order lim filtered max_n = Ok []
        /\ brief = {| overall := filtered; mapping := []; references := [];
                      refs_text_parts := [no_references] |})
  /\ (forall lim items overall_raw,
         has_match Brace overall_raw = false ->
         has_match Paren overall_raw = false ->
         has_match Square overall_raw = false ->
         build_email_citations lim items overall_raw
         = Ok {| overall := overall_raw; mapping := []; references := [];
                 refs_text_parts := [no_references] |}).
Proof.
  split; [|exact has_match_brief].
  intros lim items overall_raw brief H M max_n.
  apply build_email_citations_Ok in H as [S [X V]]. fold max_n in S, X.
  rewrite build_email_citations_off in V. fold max_n in V.
  set (filtered := strip_value
                     (normalize_brackets overall_raw) max_n) in *.
  exists filtered. split; [exact S|].
  destruct (extract_value filtered max_n) as [|n0 nums] eqn:O.
  - split; [exact X|]. now injection V as <-.
  - exfalso.
    destruct (ref_parts items _) as [refs|e]; [|discriminate].
    injection V as <-. cbn [mapping] in M.
    destruct (mapping_of_present (n0 :: nums) n0 (or_introl eq_refl)) as [new G].
    rewrite M in G. discriminate.
Qed.

Lemma no_citation_brief_witness :
  (exists filtered,
      strip_invalid_citations 4300
        (normalize_brackets (str "Stocks fell {9} (0) today.")) (N.of_nat 5)
      = Ok filtered
      /\ extract_ref_order 4300 filtered (N.of_nat 5) = Ok []
      /\ {| overall := str "Stocks fell   today."; mapping := [];
            references := []; refs_text_parts := [no_references] |}
         = {| overall := filtered; mapping := []; references := [];
              refs_text_parts := [no_references] |})
  /\ build_email_citations 4300 items5 (str "1) T1")
     = Ok {| overall := str "1) T1"; mapping := []; references := [];
             refs_text_parts := [no_references] |}.
Proof.
  destruct no_citation_brief as [P Q]. split.
  - exact (P 4300%nat items5 (str "Stocks fell {9} (0) today.")
             {| overall := str "Stocks fell   today."; mapping := [];
                references := []; refs_text_parts := [no_references] |}
             eq_refl eq_refl).
  - exact (Q 4300%nat items5 (str "1) T1") eq_refl eq_refl eq_refl).
Defined.
